(** * RedisLens icon generator: [scripts/generate-icon.py]

    A shallow embedding of the script and the properties its
    specification states.  The script has two parts:

    - [draw_icon size] paints the icon on a [size] x [size] RGBA canvas
      through a fixed sequence of [ImageDraw] calls whose coordinates are
      computed from [size] with Python's mixed int/float arithmetic;
    - [main] resizes the master image and saves it under six file names.

    Python ints are [Z]; Python floats are IEEE 754 binary64 values, taken
    from the Standard Library's executable specification [SpecFloat];
    Pillow images are the terms of the Pillow calls that built them. *)

From Stdlib Require Import ZArith List Bool Lia Ascii String.
From Stdlib Require Import SpecFloat.
From stdpp Require Import gmap strings list pretty.

Local Open Scope Z_scope.

(* ===================================================================== *)
(** * Python numbers *)
(* ===================================================================== *)

Module PyFloat.

(** binary64: 53 bits of precision, infinities at exponent 1024. *)
Definition prec : Z := 53.
Definition emax : Z := 1024.

Definition float : Type := spec_float.

(** [float(n)] for a Python int: the nearest double, ties to even.
    Beyond the largest double CPython raises [OverflowError]; the
    specification yields an infinity there. *)
Definition of_int (n : Z) : float := binary_normalize prec emax n 0 false.

(** [x * y] on doubles. *)
Definition mul (x y : float) : float := SFmul prec emax x y.

(** [x / y] on doubles (only used to cross-check the literals). *)
Definition div (x y : float) : float := SFdiv prec emax x y.

(** [int(x)]: truncation towards zero.  CPython raises on an infinity
    or a NaN; those get 0 here (see [of_int]). *)
Definition int (x : float) : Z :=
  match x with
  | S754_finite s m e =>
      let v := if 0 <=? e then Z.pos m * 2 ^ e else Z.pos m / 2 ^ (- e) in
      if s then - v else v
  | _ => 0
  end.

(** [n * c] where [n] is an int and [c] a float: Python converts the
    int operand first. *)
Definition int_mul (n : Z) (c : float) : float := mul (of_int n) c.

(** The float literals of the script, as the doubles CPython parses
    them to ([float.hex] gives the mantissa and exponent). *)
Definition lit_0_06  : float := S754_finite false 8646911284551352 (-57).
Definition lit_0_22  : float := S754_finite false 7926335344172073 (-55).
Definition lit_0_42  : float := S754_finite false 7566047373982433 (-54).
Definition lit_0_44  : float := S754_finite false 7926335344172073 (-54).
Definition lit_0_6   : float := S754_finite false 5404319552844595 (-53).
Definition lit_0_012 : float := S754_finite false 6917529027641082 (-59).
Definition lit_0_52  : float := S754_finite false 4683743612465316 (-53).
Definition lit_0_20  : float := S754_finite false 7205759403792794 (-55).
Definition lit_0_04  : float := S754_finite false 5764607523034235 (-57).
Definition lit_0_65  : float := S754_finite false 5854679515581645 (-53).
Definition lit_0_018 : float := S754_finite false 5188146770730811 (-58).
Definition lit_0_7   : float := S754_finite false 6305039478318694 (-53).
Definition lit_0_78  : float := S754_finite false 7025615418697974 (-53).
Definition lit_0_055 : float := S754_finite false 7926335344172073 (-57).

End PyFloat.

Import PyFloat.

Infix "*!" := int_mul (at level 40, left associativity).

(* ===================================================================== *)
(** * Exceptions *)
(* ===================================================================== *)

Inductive Exn :=
| ValueError (msg : string)
| FileExistsError (path : string)
| FileNotFoundError (path : string)
| IsADirectoryError (path : string)
| NotADirectoryError (path : string)
| IndexError (msg : string)
| OverflowError (msg : string)
| MemoryError.

(* ===================================================================== *)
(** * Pillow values *)
(* ===================================================================== *)

Definition RGBA : Type := Z * Z * Z * Z.
Definition Point : Type := Z * Z.
(** A bounding box [[x0, y0, x1, y1]]. *)
Definition Box : Type := Z * Z * Z * Z.

Definition alpha (c : RGBA) : Z := let '(_, _, _, a) := c in a.

Inductive Mode := ModeRGB | ModeRGBA | ModeL.

Inductive Filter := NEAREST | BILINEAR | BICUBIC | LANCZOS.

(** The [ImageDraw] calls of the script, with the arguments it passes. *)
Inductive DrawOp :=
| RoundedRectangle (xy : Box) (radius : Z) (fill : RGBA)
| Polygon (xy : list Point) (fill : RGBA)
| Line (xy : list Point) (fill : RGBA) (width : Z)
| Ellipse (xy : Box) (fill outline : option RGBA) (width : Z)
| Arc (xy : Box) (start stop : Z) (fill : RGBA) (width : Z).

(** An image is known by the calls that made it: a fresh canvas, a canvas
    a drawing call was applied to, or the resampling of another image. *)
Inductive Image :=
| Image_new (mode : Mode) (size : Z * Z) (color : RGBA)
| Image_draw (im : Image) (op : DrawOp)
| Image_resize (im : Image) (size : Z * Z) (resample : Filter).

Fixpoint im_size (im : Image) : Z * Z :=
  match im with
  | Image_new _ sz _ => sz
  | Image_draw im' _ => im_size im'
  | Image_resize _ sz _ => sz
  end.

Fixpoint im_mode (im : Image) : Mode :=
  match im with
  | Image_new m _ _ => m
  | Image_draw im' _ => im_mode im'
  | Image_resize im' _ _ => im_mode im'
  end.

Definition has_alpha (m : Mode) : bool :=
  match m with ModeRGBA => true | _ => false end.

(** The drawing calls applied to an image since its canvas was created
    (or since it was resampled), oldest first. *)
Fixpoint im_ops (im : Image) : list DrawOp :=
  match im with
  | Image_draw im' op => im_ops im' ++ [op]
  | _ => []
  end.

(** The image the drawing history started from. *)
Fixpoint im_base (im : Image) : Image :=
  match im with
  | Image_draw im' _ => im_base im'
  | _ => im
  end.

(** ** A drawing run

    [ImageDraw.Draw(img, "RGBA")] paints on [img] in place, and a call
    Pillow rejects raises.  A run is therefore either still going, with
    the canvas painted so far, or stopped by an exception (the canvas is
    kept as it was left). *)
Inductive Drawing :=
| Painted (img : Image)
| Stopped (e : Exn) (img : Image).

Definition canvas (d : Drawing) : Image :=
  match d with Painted img | Stopped _ img => img end.

Definition and_then (d : Drawing) (k : Image -> Drawing) : Drawing :=
  match d with
  | Painted img => k img
  | Stopped e img => Stopped e img
  end.

Notation "'let*' img := d 'in' k" := (and_then d (fun img => k))
  (at level 10, img name, d at level 100, k at level 200).

(** [for x in xs: body] over a canvas. *)
Fixpoint for_each {A : Type} (xs : list A) (body : A -> Image -> Drawing)
    (img : Image) : Drawing :=
  match xs with
  | [] => Painted img
  | x :: xs' => let* img := body x img in for_each xs' body img
  end.

(** Pillow's check of a bounding box, shared by [rounded_rectangle],
    [ellipse] and [arc]: the box must have [x1 >= x0] and [y1 >= y0]. *)
Definition check_box (xy : Box) : option Exn :=
  let '(x0, y0, x1, y1) := xy in
  if x1 <? x0 then Some (ValueError "x1 must be greater than or equal to x0")
  else if y1 <? y0 then Some (ValueError "y1 must be greater than or equal to y0")
  else None.

Definition paint_checked (xy : Box) (op : DrawOp) (img : Image) : Drawing :=
  match check_box xy with
  | Some e => Stopped e img
  | None => Painted (Image_draw img op)
  end.

Module draw.
Definition rounded_rectangle (xy : Box) (radius : Z) (fill : RGBA)
    (img : Image) : Drawing :=
  paint_checked xy (RoundedRectangle xy radius fill) img.
Definition polygon (xy : list Point) (fill : RGBA) (img : Image) : Drawing :=
  Painted (Image_draw img (Polygon xy fill)).
Definition line (xy : list Point) (fill : RGBA) (width : Z)
    (img : Image) : Drawing :=
  Painted (Image_draw img (Line xy fill width)).
(** [fill] and [outline] default to [None], [width] to 1. *)
Definition ellipse (xy : Box) (fill outline : option RGBA) (width : Z)
    (img : Image) : Drawing :=
  paint_checked xy (Ellipse xy fill outline width) img.
Definition arc (xy : Box) (start stop : Z) (fill : RGBA) (width : Z)
    (img : Image) : Drawing :=
  paint_checked xy (Arc xy start stop fill width) img.
End draw.

(* ===================================================================== *)
(** * [draw_icon] *)
(* ===================================================================== *)

Definition SIZE : Z := 1024.

Definition line_color : RGBA := (255, 255, 255, 80).

Definition draw_icon (size : Z) : Drawing :=
  let img := Image_new ModeRGBA (size, size) (0, 0, 0, 0) in
  let s := size in
  let '(cx, cy) := (s / 2, s / 2) in
  (* Background: rounded square *)
  let pad := int (s *! lit_0_06) in
  let radius := int (s *! lit_0_22) in
  let* img := draw.rounded_rectangle (pad, pad, s - pad, s - pad) radius
           (24, 24, 32, 255) img in
  (* Redis diamond (rotated square) *)
  let diamond_cx := int (s *! lit_0_42) in
  let diamond_cy := int (s *! lit_0_44) in
  let diamond_r := int (s *! lit_0_22) in
  let diamond := [(diamond_cx, diamond_cy - diamond_r);
                  (diamond_cx + diamond_r, diamond_cy);
                  (diamond_cx, diamond_cy + diamond_r);
                  (diamond_cx - diamond_r, diamond_cy)] in
  let redis_red := (220, 60, 50, 255) in
  let redis_red_light := (240, 90, 75, 255) in
  let* img := draw.polygon diamond redis_red img in
  (* Inner highlight on the diamond *)
  let inner_r := int (diamond_r *! lit_0_6) in
  let inner_diamond := [(diamond_cx, diamond_cy - inner_r);
                        (diamond_cx + inner_r, diamond_cy);
                        (diamond_cx, diamond_cy + inner_r);
                        (diamond_cx - inner_r, diamond_cy)] in
  let* img := draw.polygon inner_diamond redis_red_light img in
  (* Horizontal lines on the diamond *)
  let line_color := line_color in
  let line_w := Z.max 2 (int (s *! lit_0_012)) in
  let* img := for_each [(- diamond_r) / 3; 0; diamond_r / 3]
           (fun offset img =>
              let y := diamond_cy + offset in
              let dy := Z.abs offset in
              let half_width := diamond_r - dy in
              if 0 <? half_width then
                draw.line [(diamond_cx - half_width + line_w, y);
                           (diamond_cx + half_width - line_w, y)]
                          line_color line_w img
              else Painted img)
           img in
  (* Magnifying glass (lens) *)
  let lens_cx := int (s *! lit_0_52) in
  let lens_cy := int (s *! lit_0_42) in
  let lens_r := int (s *! lit_0_20) in
  let lens_color := (140, 200, 255, 255) in
  let lens_outline_w := Z.max 4 (int (s *! lit_0_04)) in
  let* img := draw.ellipse
           (lens_cx - lens_r, lens_cy - lens_r,
            lens_cx + lens_r, lens_cy + lens_r)
           None (Some lens_color) lens_outline_w img in
  let* img := draw.ellipse
           (lens_cx - lens_r + lens_outline_w,
            lens_cy - lens_r + lens_outline_w,
            lens_cx + lens_r - lens_outline_w,
            lens_cy + lens_r - lens_outline_w)
           (Some (140, 200, 255, 35)) None 1 img in
  (* Lens reflection arc *)
  let shine_r := int (lens_r *! lit_0_65) in
  let shine_w := Z.max 2 (int (s *! lit_0_018)) in
  let* img := draw.arc
           (lens_cx - shine_r, lens_cy - shine_r,
            lens_cx + shine_r, lens_cy + shine_r)
           200 260 (255, 255, 255, 120) shine_w img in
  (* Handle *)
  let handle_start_x := lens_cx + int (lens_r *! lit_0_7) in
  let handle_start_y := lens_cy + int (lens_r *! lit_0_7) in
  let handle_end_x := int (s *! lit_0_78) in
  let handle_end_y := int (s *! lit_0_78) in
  let handle_w := Z.max 6 (int (s *! lit_0_055)) in
  let* img := draw.line
           [(handle_start_x, handle_start_y); (handle_end_x, handle_end_y)]
           (180, 190, 210, 255) handle_w img in
  (* Handle cap *)
  let cap_r := int (handle_w *! lit_0_6) in
  let* img := draw.ellipse
           (handle_end_x - cap_r, handle_end_y - cap_r,
            handle_end_x + cap_r, handle_end_y + cap_r)
           (Some (160, 170, 190, 255)) None 1 img in
  Painted img.

(* ===================================================================== *)
(** * The geometry of [draw_icon], one definition per local variable *)
(* ===================================================================== *)

Module Geom.
Definition pad (s : Z) : Z := int (s *! lit_0_06).
Definition radius (s : Z) : Z := int (s *! lit_0_22).
Definition diamond_cx (s : Z) : Z := int (s *! lit_0_42).
Definition diamond_cy (s : Z) : Z := int (s *! lit_0_44).
Definition diamond_r (s : Z) : Z := int (s *! lit_0_22).
Definition inner_r (s : Z) : Z := int (diamond_r s *! lit_0_6).
Definition line_w (s : Z) : Z := Z.max 2 (int (s *! lit_0_012)).
Definition offsets (s : Z) : list Z :=
  [(- diamond_r s) / 3; 0; diamond_r s / 3].
Definition lens_cx (s : Z) : Z := int (s *! lit_0_52).
Definition lens_cy (s : Z) : Z := int (s *! lit_0_42).
Definition lens_r (s : Z) : Z := int (s *! lit_0_20).
Definition lens_outline_w (s : Z) : Z := Z.max 4 (int (s *! lit_0_04)).
Definition shine_r (s : Z) : Z := int (lens_r s *! lit_0_65).
Definition shine_w (s : Z) : Z := Z.max 2 (int (s *! lit_0_018)).
Definition handle_start_x (s : Z) : Z := lens_cx s + int (lens_r s *! lit_0_7).
Definition handle_start_y (s : Z) : Z := lens_cy s + int (lens_r s *! lit_0_7).
Definition handle_end_x (s : Z) : Z := int (s *! lit_0_78).
Definition handle_end_y (s : Z) : Z := int (s *! lit_0_78).
Definition handle_w (s : Z) : Z := Z.max 6 (int (s *! lit_0_055)).
Definition cap_r (s : Z) : Z := int (handle_w s *! lit_0_6).
End Geom.

(** The vertices of a diamond (a square rotated by 45 degrees). *)
Definition diamond_pts (cx cy r : Z) : list Point :=
  [(cx, cy - r); (cx + r, cy); (cx, cy + r); (cx - r, cy)].

(** The chord [draw_icon] paints for one offset, if any. *)
Definition chord (s offset : Z) : list DrawOp :=
  let half_width := Geom.diamond_r s - Z.abs offset in
  if 0 <? half_width then
    [Line [(Geom.diamond_cx s - half_width + Geom.line_w s,
            Geom.diamond_cy s + offset);
           (Geom.diamond_cx s + half_width - Geom.line_w s,
            Geom.diamond_cy s + offset)]
          line_color (Geom.line_w s)]
  else [].

Definition chords (s : Z) : list DrawOp := flat_map (chord s) (Geom.offsets s).

Definition background_op (s : Z) : DrawOp :=
  RoundedRectangle (Geom.pad s, Geom.pad s, s - Geom.pad s, s - Geom.pad s)
    (Geom.radius s) (24, 24, 32, 255).

Definition lens_outline_op (s : Z) : DrawOp :=
  Ellipse (Geom.lens_cx s - Geom.lens_r s, Geom.lens_cy s - Geom.lens_r s,
           Geom.lens_cx s + Geom.lens_r s, Geom.lens_cy s + Geom.lens_r s)
    None (Some (140, 200, 255, 255)) (Geom.lens_outline_w s).

Definition lens_fill_op (s : Z) : DrawOp :=
  Ellipse (Geom.lens_cx s - Geom.lens_r s + Geom.lens_outline_w s,
           Geom.lens_cy s - Geom.lens_r s + Geom.lens_outline_w s,
           Geom.lens_cx s + Geom.lens_r s - Geom.lens_outline_w s,
           Geom.lens_cy s + Geom.lens_r s - Geom.lens_outline_w s)
    (Some (140, 200, 255, 35)) None 1.

Definition shine_op (s : Z) : DrawOp :=
  Arc (Geom.lens_cx s - Geom.shine_r s, Geom.lens_cy s - Geom.shine_r s,
       Geom.lens_cx s + Geom.shine_r s, Geom.lens_cy s + Geom.shine_r s)
    200 260 (255, 255, 255, 120) (Geom.shine_w s).

Definition handle_op (s : Z) : DrawOp :=
  Line [(Geom.handle_start_x s, Geom.handle_start_y s);
        (Geom.handle_end_x s, Geom.handle_end_y s)]
    (180, 190, 210, 255) (Geom.handle_w s).

Definition cap_op (s : Z) : DrawOp :=
  Ellipse (Geom.handle_end_x s - Geom.cap_r s, Geom.handle_end_y s - Geom.cap_r s,
           Geom.handle_end_x s + Geom.cap_r s, Geom.handle_end_y s + Geom.cap_r s)
    (Some (160, 170, 190, 255)) None 1.

(** The calls of a complete run of [draw_icon], in program order: the
    background and the diamond with its chords, then the magnifier. *)
Definition diamond_part (s : Z) : list DrawOp :=
  [background_op s;
   Polygon (diamond_pts (Geom.diamond_cx s) (Geom.diamond_cy s) (Geom.diamond_r s))
     (220, 60, 50, 255);
   Polygon (diamond_pts (Geom.diamond_cx s) (Geom.diamond_cy s) (Geom.inner_r s))
     (240, 90, 75, 255)]
  ++ chords s.

Definition lens_part (s : Z) : list DrawOp :=
  [lens_outline_op s; lens_fill_op s; shine_op s; handle_op s; cap_op s].

Definition plan (s : Z) : list DrawOp := diamond_part s ++ lens_part s.

Definition blank (s : Z) : Image := Image_new ModeRGBA (s, s) (0, 0, 0, 0).

(* ===================================================================== *)
(** * Pixels *)
(* ===================================================================== *)

(** Pillow's rasterisers are not part of the script.  What is used of
    them is where they may paint: inside the bounding box handed to
    [rounded_rectangle], [ellipse] and [arc], inside the hull of the
    vertices of a polygon, and within [width] pixels of the hull of the
    end points of a line. *)

Definition in_box (b : Box) (x y : Z) : bool :=
  let '(x0, y0, x1, y1) := b in
  (x0 <=? x) && (x <=? x1) && (y0 <=? y) && (y <=? y1).

Definition hull (pts : list Point) : option Box :=
  match pts with
  | [] => None
  | (x, y) :: rest =>
      Some (fold_left
              (fun '(x0, y0, x1, y1) '(px, py) =>
                 (Z.min x0 px, Z.min y0 py, Z.max x1 px, Z.max y1 py))
              rest (x, y, x, y))
  end.

Definition grow (d : Z) (b : Box) : Box :=
  let '(x0, y0, x1, y1) := b in (x0 - d, y0 - d, x1 + d, y1 + d).

Definition footprint (op : DrawOp) : option Box :=
  match op with
  | RoundedRectangle xy _ _ => Some xy
  | Polygon pts _ => hull pts
  | Line pts _ w => grow (Z.max 1 w) <$> hull pts
  | Ellipse xy _ _ _ => Some xy
  | Arc xy _ _ _ _ => Some xy
  end.

Definition may_touch (op : DrawOp) (x y : Z) : bool :=
  match footprint op with
  | Some b => in_box b x y
  | None => false
  end.

(** What [rounded_rectangle] fills whatever the rounding of the corners:
    the box without the four corner squares of side [radius].  Pillow
    paints the corners as pie slices and the rest as three rectangles,
    [[x0 + r + 1, y0, x1 - r - 1, y1]] and, left and right of it, the rows
    from [y0 + r + 1] to [y1 - r - 1]; where the corners meet, [r] is
    smaller than [radius]. *)
Definition in_cross (xy : Box) (radius x y : Z) : bool :=
  let '(x0, y0, x1, y1) := xy in
  (0 <=? radius) &&
  (((x0 + radius <? x) && (x <? x1 - radius) && (y0 <=? y) && (y <=? y1))
   || ((y0 + radius <? y) && (y <? y1 - radius) && (x0 <=? x) && (x <=? x1))).

(** A rasteriser: how a drawing call changes the colour of a pixel, and
    how an image is resampled.  Outside the footprint of a call no pixel
    changes.  [ImageDraw.Draw(img, "RGBA")] on an RGBA image does not
    blend: a filled pixel takes the fill colour, alpha included. *)
Record Rasteriser := {
  paint : DrawOp -> Z -> Z -> RGBA -> RGBA;
  paint_outside : forall op x y c, may_touch op x y = false -> paint op x y c = c;
  paint_fill : forall xy radius fill x y c,
    in_cross xy radius x y = true ->
    paint (RoundedRectangle xy radius fill) x y c = fill;
  resample : Filter -> Z * Z -> (Z -> Z -> RGBA) -> Z * Z -> Z -> Z -> RGBA
}.

Fixpoint pixel (R : Rasteriser) (im : Image) (x y : Z) : RGBA :=
  match im with
  | Image_new _ _ c => c
  | Image_draw im' op => paint R op x y (pixel R im' x y)
  | Image_resize im' sz f => resample R f (im_size im') (pixel R im') sz x y
  end.

(** [img.getpixel((x, y))]; [None] stands for the [IndexError] outside
    the image. *)
Definition getpixel (R : Rasteriser) (im : Image) (xy : Z * Z) : option RGBA :=
  let '(x, y) := xy in
  let '(w, h) := im_size im in
  if (0 <=? x) && (x <? w) && (0 <=? y) && (y <? h)
  then Some (pixel R im x y) else None.

(** The colour a call paints with. *)
Definition ink (op : DrawOp) : RGBA :=
  match op with
  | RoundedRectangle _ _ c | Polygon _ c | Line _ c _ | Arc _ _ _ c _ => c
  | Ellipse _ (Some c) _ _ => c
  | Ellipse _ None (Some c) _ => c
  | Ellipse _ None None _ => (0, 0, 0, 0)
  end.

(** The coarsest rasteriser: every call fills its whole footprint, and
    resampling takes the nearest source pixel. *)
Definition box_paint (op : DrawOp) (x y : Z) (c : RGBA) : RGBA :=
  if may_touch op x y then ink op else c.

Definition box_rasteriser : Rasteriser := {|
  paint := box_paint;
  paint_outside := fun op x y c (H : may_touch op x y = false) =>
    @eq_ind_r bool false (fun b : bool => (if b then ink op else c) = c)
      eq_refl (may_touch op x y) H;
  paint_fill := ltac:(
    intros [[[x0 y0] x1] y1] radius fill x y c H;
    unfold box_paint, may_touch; cbn [footprint ink];
    replace (in_box (x0, y0, x1, y1) x y) with true; [reflexivity|];
    symmetry; unfold in_cross in H; unfold in_box;
    rewrite andb_true_iff, orb_true_iff, !andb_true_iff, !Z.leb_le, !Z.ltb_lt in H;
    rewrite !andb_true_iff, !Z.leb_le; lia);
  resample _ ssz src dsz x y :=
    src (x * fst ssz / fst dsz) (y * snd ssz / snd dsz)
|}.

(* ===================================================================== *)
(** * The operating system: paths, files, standard output *)
(* ===================================================================== *)

Module os_path.
Definition sep : ascii := "/"%char.

Definition startswith_sep (p : string) : bool :=
  match p with
  | String c _ => bool_decide (c = sep)
  | EmptyString => false
  end.

Fixpoint endswith_sep (p : string) : bool :=
  match p with
  | EmptyString => false
  | String c EmptyString => bool_decide (c = sep)
  | String _ rest => endswith_sep rest
  end.

(** [posixpath.join(a, b)]. *)
Definition join2 (path b : string) : string :=
  if startswith_sep b then b
  else if bool_decide (path = "") || endswith_sep path then path +:+ b
  else path +:+ "/" +:+ b.

(** [os.path.join(a, *p)]. *)
Definition join (a : string) (p : list string) : string := fold_left join2 p a.

(** [p[:p.rfind('/') + 1]]. *)
Fixpoint head (p : string) : string :=
  match p with
  | EmptyString => EmptyString
  | String c rest =>
      match head rest with
      | EmptyString => if bool_decide (c = sep) then String c EmptyString
                       else EmptyString
      | h => String c h
      end
  end.

(** [s.rstrip('/')]. *)
Fixpoint rstrip_sep (s : string) : string :=
  match s with
  | EmptyString => EmptyString
  | String c rest =>
      match rstrip_sep rest with
      | EmptyString => if bool_decide (c = sep) then EmptyString
                       else String c EmptyString
      | r => String c r
      end
  end.

(** [posixpath.dirname(p)]: the head, without trailing separators
    unless it consists of separators only. *)
Definition dirname (p : string) : string :=
  let h := head p in
  match rstrip_sep h with
  | EmptyString => h
  | r => r
  end.
End os_path.

(** What Pillow was asked to encode into a file. *)
Inductive FileContent :=
| PNGFile (im : Image)
| ICOFile (frames : list Image)
| ICNSFile (entries : list (string * Image)).

(** Paths are compared as written: a world lists its directories and its
    regular files under the names the script uses for them.  Permissions
    and disk space are not modelled: a call fails only for what is or is
    not at a path.  The current directory (the empty path) and the roots
    are directories of every world. *)
Record World := {
  dirs : gset string;
  files : gmap string FileContent;
  stdout : list string
}.

Inductive result (A : Type) :=
| Ok (a : A)
| Raise (e : Exn).
Arguments Ok {A} a.
Arguments Raise {A} e.

Definition IO (A : Type) : Type := World -> result A * World.

Definition ret {A : Type} (a : A) : IO A := fun w => (Ok a, w).
Definition raise {A : Type} (e : Exn) : IO A := fun w => (Raise e, w).
Definition bind {A B : Type} (m : IO A) (k : A -> IO B) : IO B :=
  fun w => match m w with
           | (Ok a, w') => k a w'
           | (Raise e, w') => (Raise e, w')
           end.

Notation "'let!' x := m 'in' k" := (bind m (fun x => k))
  (at level 10, x pattern, m at level 100, k at level 200).
Notation "m ;; k" := (bind m (fun _ => k))
  (at level 100, right associativity).

(** [for x in xs: body]. *)
Fixpoint for_ {A : Type} (xs : list A) (body : A -> IO unit) : IO unit :=
  match xs with
  | [] => ret tt
  | x :: xs' => body x ;; for_ xs' body
  end.

Definition print (line : string) : IO unit :=
  fun w => (Ok tt, {| dirs := dirs w; files := files w;
                      stdout := stdout w ++ [line] |}).

(** The current directory and the roots: the paths that are their own
    [dirname]. *)
Definition is_top (p : string) : bool := bool_decide (os_path.dirname p = p).

(** The ancestors of a path below the current directory or the root,
    nearest first: [dirname], as often as it gives a new path. *)
Fixpoint ancestors_upto (n : nat) (p : string) : list string :=
  match n with
  | O => []
  | S n' => let d := os_path.dirname p in
            if is_top d then [] else d :: ancestors_upto n' d
  end.

Definition ancestors (p : string) : list string :=
  ancestors_upto (String.length p) p.

(** Something, a directory or a regular file, is at the path. *)
Definition listed (w : World) (p : string) : bool :=
  bool_decide (p ∈ dirs w) || bool_decide (p ∈ dom (files w)).

(** Of a list of ancestors, nearest first: those with nothing at their
    path, up to the first one that has, and that one. *)
Fixpoint missing (w : World) (l : list string) : list string * option string :=
  match l with
  | [] => ([], None)
  | d :: l' =>
      if listed w d then ([], Some d)
      else let '(m, e) := missing w l' in (d :: m, e)
  end.

(** The directories [os.makedirs(name, exist_ok=True)] makes: none when
    [name] is a directory, else [name] and its missing ancestors. *)
Definition made (name : string) (w : World) : gset string :=
  if decide (name ∈ dirs w) then ∅
  else list_to_set (name :: (missing w (ancestors name)).1).

(** [os.makedirs(name, exist_ok=True)], by the outcome of CPython's
    recursion ([makedirs] of the head when nothing is there, then [mkdir]
    of the name, [FileExistsError] swallowed when the name is a
    directory):
    - [name] is a regular file: [mkdir] fails and [FileExistsError]
      propagates, nothing is made;
    - [name] is a directory: nothing happens;
    - else the missing ancestors are made, outermost first, then [name];
      when the nearest ancestor that is there is a regular file, the
      first [mkdir], right below it, fails with [NotADirectoryError] and
      nothing is made. *)
Definition makedirs (name : string) : IO unit :=
  fun w =>
    if decide (name ∈ dom (files w)) then (Raise (FileExistsError name), w)
    else if decide (name ∈ dirs w) then
      (Ok tt, {| dirs := made name w ∪ dirs w; files := files w;
                 stdout := stdout w |})
    else
      let '(m, e) := missing w (ancestors name) in
      match e with
      | Some d =>
          if decide (d ∈ dom (files w))
          then (Raise (NotADirectoryError (List.last m name)), w)
          else (Ok tt, {| dirs := made name w ∪ dirs w; files := files w;
                          stdout := stdout w |})
      | None => (Ok tt, {| dirs := made name w ∪ dirs w; files := files w;
                            stdout := stdout w |})
      end.

(** [open(path, "w+b")] followed by the write of the whole content: the
    file is created, or replaced if it exists.  The path must not be a
    directory, and its parent must be one. *)
Definition write_file (path : string) (content : FileContent) : IO unit :=
  fun w =>
    if decide (path ∈ dirs w) then (Raise (IsADirectoryError path), w)
    else if decide (is_top (os_path.dirname path) = true
                    ∨ os_path.dirname path ∈ dirs w) then
      (Ok tt, {| dirs := dirs w; files := <[path := content]> (files w);
                 stdout := stdout w |})
    else if decide (os_path.dirname path ∈ dom (files w)) then
      (Raise (NotADirectoryError path), w)
    else (Raise (FileNotFoundError path), w).

(* ===================================================================== *)
(** * Pillow: resizing and saving *)
(* ===================================================================== *)

(** [im.resize(size, resample)] to a size the image does not have: a new
    image, the source is left as is.  (To its own size an image is
    copied; [main] asks for no such resize of the master.) *)
Definition resize (im : Image) (size : Z * Z) (resample : Filter) : Image :=
  Image_resize im size resample.

(** [im.resize(size)]: the filter defaults to bicubic, and an image that
    has the size already is copied. *)
Definition resize_default (im : Image) (size : Z * Z) : Image :=
  if bool_decide (im_size im = size) then im
  else Image_resize im size BICUBIC.

(** [sorted(set(sizes))] on pairs of ints. *)
Definition size_leb (a b : Z * Z) : bool :=
  (fst a <? fst b) || ((fst a =? fst b) && (snd a <=? snd b)).

Fixpoint insert_sorted (a : Z * Z) (l : list (Z * Z)) : list (Z * Z) :=
  match l with
  | [] => [a]
  | b :: l' => if size_leb a b then a :: b :: l' else b :: insert_sorted a l'
  end.

Definition sorted_set (sizes : list (Z * Z)) : list (Z * Z) :=
  foldr insert_sorted [] (remove_dups sizes).

(** The frames Pillow's ICO writer stores for
    [im.save(fp, format="ICO", sizes=sizes, append_images=append_images)].
    As the Pillow handbook puts it, any size bigger than the image [save]
    is called on, or than 256, is ignored; for every size that is kept,
    the frame is the image of that size among [im] and [append_images],
    and a scaled-down copy when there is none ([thumbnail], which for the
    square images of this script is a resize). *)
Definition ico_frames (im : Image) (sizes : list (Z * Z))
    (append_images : list Image) : list Image :=
  let provided_ims := im :: append_images in
  let '(width, height) := im_size im in
  flat_map
    (fun size : Z * Z =>
       if (width <? fst size) || (height <? snd size)
          || (256 <? fst size) || (256 <? snd size)
       then []
       else match List.find (fun provided_im =>
                               bool_decide (im_size provided_im = size))
                            provided_ims with
            | Some provided_im => [provided_im]
            | None => [Image_resize (List.last provided_ims im) size LANCZOS]
            end)
    (sorted_set sizes).

(** The entries Pillow's ICNS writer stores for
    [im.save(fp, format="ICNS")] without [append_images]: one for each of
    its eight icon types, holding [im.resize((side, side))] for the side
    of the type. *)
Definition icns_types : list (string * Z) :=
  [("ic07", 128); ("ic08", 256); ("ic09", 512); ("ic10", 1024);
   ("ic11", 32); ("ic12", 64); ("ic13", 256); ("ic14", 512)].

Definition icns_entries (im : Image) : list (string * Image) :=
  map (fun '(type, side) => (type, resize_default im (side, side))) icns_types.

Module save.
Definition PNG (im : Image) (path : string) : IO unit :=
  write_file path (PNGFile im).
Definition ICO (im : Image) (path : string) (sizes : list (Z * Z))
    (append_images : list Image) : IO unit :=
  write_file path (ICOFile (ico_frames im sizes append_images)).
Definition ICNS (im : Image) (path : string) : IO unit :=
  write_file path (ICNSFile (icns_entries im)).
End save.

(* ===================================================================== *)
(** * [main] *)
(* ===================================================================== *)

(** ** The canvas

    [Image.new(mode, size, color)] can fail before anything is drawn:
    Pillow refuses a negative side ([ValueError]), takes the sides as C
    ints ([OverflowError] from [2 ^ 31] on), and the pixel memory, four
    bytes a pixel for RGB and RGBA, has to be handed out by the allocator
    ([MemoryError] when it is not).  What the allocator hands out is not
    the script's to say: it is a parameter, [grants n] telling whether a
    request of [n] bytes succeeds. *)
Record Allocator := { grants : Z -> bool }.

Definition pixel_bytes (m : Mode) : Z :=
  match m with ModeL => 1 | ModeRGB | ModeRGBA => 4 end.

Definition new_image (A : Allocator) (mode : Mode) (size : Z * Z)
    (color : RGBA) : result Image :=
  let '(width, height) := size in
  if (width <? 0) || (height <? 0)
  then Raise (ValueError "Width and height must be >= 0")
  else if (2 ^ 31 <=? width) || (2 ^ 31 <=? height)
  then Raise (OverflowError "signed integer is greater than maximum")
  else if grants A (pixel_bytes mode * width * height)
  then Ok (Image_new mode size color)
  else Raise MemoryError.

(** [draw_icon(size)] as a call: line 13 asks for the canvas, and when it
    is handed out the run of [draw_icon] paints on it.  [draw_icon] above
    is that run; nothing is painted when line 13 raises. *)
Definition draw_icon_call (A : Allocator) (size : Z) : result Drawing :=
  match new_image A ModeRGBA (size, size) (0, 0, 0, 0) with
  | Ok _ => Ok (draw_icon size)
  | Raise e => Raise e
  end.

(** A call of [draw_icon] from [main]: an exception propagates.  The
    canvas of the master, 4 MiB, is taken to be handed out. *)
Definition call_draw_icon (size : Z) : IO Image :=
  match draw_icon size with
  | Painted img => ret img
  | Stopped e _ => raise e
  end.

Definition str (n : Z) : string := pretty n.
Definition newline : string := String (ascii_of_nat 10) EmptyString.

(** The export phase of [main] (lines 143-177): everything after the
    master image has been drawn. *)
Definition export (icon_dir : string) (master : Image) : IO unit :=
  (* Save PNG sizes required by Tauri *)
  let sizes := [("32x32.png", 32); ("128x128.png", 128);
                ("128x128@2x.png", 256)] in
  for_ sizes (fun '(filename, sz) =>
    let resized := resize master (sz, sz) LANCZOS in
    let path := os_path.join icon_dir [filename] in
    save.PNG resized path ;;
    print ("  Saved " +:+ filename +:+ " (" +:+ str sz +:+ "x" +:+ str sz
           +:+ ")")) ;;
  (* Save ICO (Windows) - multiple sizes embedded *)
  let ico_sizes := [16; 24; 32; 48; 64; 128; 256] in
  let ico_images := map (fun sz => resize master (sz, sz) LANCZOS) ico_sizes in
  let ico_path := os_path.join icon_dir ["icon.ico"] in
  match ico_images with
  | [] => raise (IndexError "list index out of range")
  | ico_images_0 :: ico_images_1 =>
      save.ICO ico_images_0 ico_path (map (fun sz => (sz, sz)) ico_sizes)
        ico_images_1
  end ;;
  print ("  Saved icon.ico (" +:+ str (Z.of_nat (List.length ico_sizes))
         +:+ " sizes)") ;;
  (* Save ICNS (macOS) *)
  let icns_path := os_path.join icon_dir ["icon.icns"] in
  let icns_img := resize master (512, 512) LANCZOS in
  save.ICNS icns_img icns_path ;;
  print "  Saved icon.icns" ;;
  (* Also save a 512x512 for web/README use *)
  save.PNG (resize master (512, 512) LANCZOS)
    (os_path.join icon_dir ["icon.png"]) ;;
  print "  Saved icon.png (512x512)" ;;
  print (newline +:+ "All icons generated!").

(** [script_dir] is the value of [os.path.dirname(__file__)]. *)
Definition main (script_dir : string) : IO unit :=
  let icon_dir := os_path.join script_dir [".."; "src-tauri"; "icons"] in
  makedirs icon_dir ;;
  (* Generate master icon *)
  let! master := call_draw_icon SIZE in
  export icon_dir master.

(** The exit status of the interpreter after [if __name__ == "__main__":
    main()]: 0 when [main] returns, 1 on an uncaught exception. *)
Definition exit_status {A : Type} (r : result A) : Z :=
  match r with Ok _ => 0 | Raise _ => 1 end.

Definition empty_world : World := {| dirs := ∅; files := ∅; stdout := [] |}.

(** ** What a run leaves behind *)

(** The directory [main] writes to, and the path of a file in it. *)
Definition icon_dir (script_dir : string) : string :=
  os_path.join script_dir [".."; "src-tauri"; "icons"].

Definition icon_path (script_dir filename : string) : string :=
  os_path.join (icon_dir script_dir) [filename].

(** The six files of the export phase, in the order they are written.
    [icon.ico] holds what [ico_frames] keeps of the seven images. *)
Definition artifacts (master : Image) : list (string * FileContent) :=
  [("32x32.png", PNGFile (resize master (32, 32) LANCZOS));
   ("128x128.png", PNGFile (resize master (128, 128) LANCZOS));
   ("128x128@2x.png", PNGFile (resize master (256, 256) LANCZOS));
   ("icon.ico", ICOFile [resize master (16, 16) LANCZOS]);
   ("icon.icns", ICNSFile (icns_entries (resize master (512, 512) LANCZOS)));
   ("icon.png", PNGFile (resize master (512, 512) LANCZOS))].

Definition filenames : list string :=
  ["32x32.png"; "128x128.png"; "128x128@2x.png"; "icon.ico"; "icon.icns";
   "icon.png"].

Definition messages : list string :=
  ["  Saved 32x32.png (32x32)"; "  Saved 128x128.png (128x128)";
   "  Saved 128x128@2x.png (256x256)"; "  Saved icon.ico (7 sizes)";
   "  Saved icon.icns"; "  Saved icon.png (512x512)";
   newline +:+ "All icons generated!"].

Definition store (script_dir : string) (fs : gmap string FileContent)
    (a : string * FileContent) : gmap string FileContent :=
  <[icon_path script_dir (fst a) := snd a]> fs.

(** The world after a successful export. *)
Definition after_export (script_dir : string) (master : Image) (w : World) : World :=
  {| dirs := dirs w;
     files := foldl (store script_dir) (files w) (artifacts master);
     stdout := stdout w ++ messages |}.

(** The master image of a run of [main]: what [draw_icon(SIZE)] returns. *)
Definition master : Image := Eval vm_compute in canvas (draw_icon SIZE).

(** The world after a successful run of [main]. *)
Definition after_main (script_dir : string) (w : World) : World :=
  after_export script_dir master
    {| dirs := made (icon_dir script_dir) w ∪ dirs w; files := files w;
       stdout := stdout w |}.

(** A directory can be made at [name], or is there: no regular file is
    at [name], and unless [name] is a directory no regular file is at an
    ancestor of it. *)
Definition makeable (name : string) (w : World) : Prop :=
  (name ∉ dom (files w)) ∧
  (name ∈ dirs w ∨ (∀ p, p ∈ ancestors name → p ∉ dom (files w))).

(** What [main] needs of the world to run through: the icon directory
    can be made or is there, and no target is a directory. *)
Definition writable (script_dir : string) (w : World) : Prop :=
  makeable (icon_dir script_dir) w ∧
  (∀ f, f ∈ filenames → icon_path script_dir f ∉ dirs w).

(* ===================================================================== *)
(** * The statements of the specification *)
(* ===================================================================== *)

(** The chords among the drawing calls: the lines in [line_color]. *)
Definition is_chord (op : DrawOp) : bool :=
  match op with
  | Line _ fill _ => bool_decide (fill = line_color)
  | _ => false
  end.

(** The chord of the specification for one vertical offset: its half
    width is [r - |offset|]; it is left out when that is not positive,
    and otherwise runs from [cx - half_width] to [cx + half_width] at
    height [cy + offset], shortened by the stroke width [w] at both
    ends. *)
Definition spec_chord (cx cy r w offset : Z) : option DrawOp :=
  let half_width := r - Z.abs offset in
  if half_width <=? 0 then None
  else Some (Line [(cx - half_width + w, cy + offset);
                   (cx + half_width - w, cy + offset)] line_color w).

(** The stroke of a drawing call, with the floor the script puts under
    it: chords (lines in [line_color]) 2, the handle (the other line) 6,
    the outlined ellipse of the lens 4, the shine arc 2. *)
Definition stroke_floor (op : DrawOp) : option (Z * Z) :=
  match op with
  | Line _ fill w => Some (w, if bool_decide (fill = line_color) then 2 else 6)
  | Ellipse _ _ (Some _) w => Some (w, 4)
  | Arc _ _ _ _ w => Some (w, 2)
  | _ => None
  end.

(** The heights of the chords among drawing calls. *)
Definition chord_heights (ops : list DrawOp) : list Z :=
  omap (λ op, match op with
              | Line ((_, y) :: _) fill _ =>
                  if bool_decide (fill = line_color) then Some y else None
              | _ => None
              end) ops.

(** A dimension derived as [size * constant_fraction]: a fixed fraction
    [p / q] of the size (read generously, its integer part). *)
Definition fraction_of_size (d : Z → Z) : Prop :=
  ∃ p q : Z, 0 < q ∧ ∀ size, 0 < size → d size = size * p / q.

(** A dimension that scales linearly with the size. *)
Definition scales_linearly (d : Z → Z) : Prop :=
  ∀ k size, 0 < k → 0 < size → d (k * size) = k * d size.

Definition stroke_widths : list (Z → Z) :=
  [Geom.line_w; Geom.lens_outline_w; Geom.shine_w; Geom.handle_w].

Definition offsets_and_radii : list (Z → Z) :=
  [Geom.pad; Geom.radius; Geom.diamond_cx; Geom.diamond_cy; Geom.diamond_r;
   Geom.inner_r; Geom.lens_cx; Geom.lens_cy; Geom.lens_r; Geom.shine_r;
   Geom.handle_start_x; Geom.handle_start_y; Geom.handle_end_x;
   Geom.handle_end_y; Geom.cap_r].

(** [d] is [x * p / q] cut to a whole number of pixels, give or take the
    rounding of the float product: [x * p / q - 1 <= d <= x * p / q]. *)
Definition truncation_of (d p q x : Z) : Prop :=
  q * d ≤ p * x ≤ q * (d + 1).

(** A stroke width with floor [lo]: the larger of [lo] and the truncated
    fraction [p / q] of the size. *)
Definition floored_fraction (w lo p q size : Z) : Prop :=
  ∃ t, truncation_of t p q size ∧ w = Z.max lo t.

(** The images stored in a file. *)
Definition images_of (c : FileContent) : list Image :=
  match c with
  | PNGFile im => [im]
  | ICNSFile entries => entries.*2
  | ICOFile frames => frames
  end.

(** [im] is [src] resized, once or more often: nothing was drawn for
    it, and nothing on it. *)
Fixpoint derived_from (src im : Image) : Prop :=
  match im with
  | Image_resize im' _ _ => im' = src ∨ derived_from src im'
  | _ => False
  end.

(** The state of a file system: whatever is at a path lies in a
    directory of the world, in the current directory or in a root, and
    no path is both a directory and a regular file. *)
Definition well_formed (w : World) : Prop :=
  (∀ p, listed w p = true →
     is_top (os_path.dirname p) = true ∨ os_path.dirname p ∈ dirs w) ∧
  (∀ p, p ∈ dirs w → p ∉ dom (files w)).

(** A world in which the parent of the icon directory of [scripts] is a
    regular file. *)
Definition parent_file_world : World :=
  {| dirs := {["scripts"; "scripts/.."]};
     files := {["scripts/../src-tauri" := PNGFile (blank 1)]};
     stdout := [] |}.

(** A world in which the icon directory holds an older [icon.png]. *)
Definition stale_world (script_dir : string) : World :=
  {| dirs := {[icon_dir script_dir]};
     files := {[icon_path script_dir "icon.png" := PNGFile (blank 1)]};
     stdout := [] |}.

(* ===================================================================== *)
(** * Further statements about the script *)
(* ===================================================================== *)

(** From size 1 to 19 the run stops at the glass fill of the lens; from
    20 to 4096 it returns. *)
Definition returns (size : Z) : bool :=
  match draw_icon size with Painted _ => true | Stopped _ _ => false end.

Definition raises_value_error (size : Z) : bool :=
  match draw_icon size with
  | Stopped (ValueError msg) _ =>
      bool_decide (msg = "x1 must be greater than or equal to x0")
  | _ => false
  end.

(** The offsets, radii and stroke widths of [draw_icon] as truncated
    fractions. *)
Definition geometry_fractions (size : Z) : Prop :=
  truncation_of (Geom.pad size) 6 100 size /\
  truncation_of (Geom.radius size) 22 100 size /\
  truncation_of (Geom.diamond_cx size) 42 100 size /\
  truncation_of (Geom.diamond_cy size) 44 100 size /\
  truncation_of (Geom.diamond_r size) 22 100 size /\
  truncation_of (Geom.inner_r size) 6 10 (Geom.diamond_r size) /\
  truncation_of (Geom.lens_cx size) 52 100 size /\
  truncation_of (Geom.lens_cy size) 42 100 size /\
  truncation_of (Geom.lens_r size) 20 100 size /\
  truncation_of (Geom.shine_r size) 65 100 (Geom.lens_r size) /\
  truncation_of (Geom.handle_start_x size - Geom.lens_cx size) 7 10
    (Geom.lens_r size) /\
  truncation_of (Geom.handle_start_y size - Geom.lens_cy size) 7 10
    (Geom.lens_r size) /\
  truncation_of (Geom.handle_end_x size) 78 100 size /\
  truncation_of (Geom.handle_end_y size) 78 100 size /\
  truncation_of (Geom.cap_r size) 6 10 (Geom.handle_w size) /\
  floored_fraction (Geom.line_w size) 2 12 1000 size /\
  floored_fraction (Geom.lens_outline_w size) 4 4 100 size /\
  floored_fraction (Geom.shine_w size) 2 18 1000 size /\
  floored_fraction (Geom.handle_w size) 6 55 1000 size.

(** No offset, radius or width of [draw_icon] is negative. *)
Definition geometry_nonneg (size : Z) : Prop :=
  0 <= Geom.pad size /\ 0 <= Geom.radius size /\
  0 <= Geom.diamond_cx size /\ 0 <= Geom.diamond_cy size /\
  0 <= Geom.diamond_r size /\ 0 <= Geom.inner_r size /\
  0 <= Geom.lens_cx size /\ 0 <= Geom.lens_cy size /\
  0 <= Geom.lens_r size /\ 0 <= Geom.shine_r size /\
  Geom.lens_cx size <= Geom.handle_start_x size /\
  Geom.lens_cy size <= Geom.handle_start_y size /\
  0 <= Geom.handle_end_x size /\ 0 <= Geom.handle_end_y size /\
  0 <= Geom.cap_r size.

(** An allocator that hands out up to 4 GiB at a time. *)
Definition four_gib : Allocator := {| grants := fun n => n <=? 2 ^ 32 |}.

(** The boxes [draw_icon] hands to the calls that check them, in program
    order: background, lens outline, glass fill, shine arc, handle cap. *)
Definition checked_boxes (s : Z) : list Box :=
  [(Geom.pad s, Geom.pad s, s - Geom.pad s, s - Geom.pad s);
   (Geom.lens_cx s - Geom.lens_r s, Geom.lens_cy s - Geom.lens_r s,
    Geom.lens_cx s + Geom.lens_r s, Geom.lens_cy s + Geom.lens_r s);
   (Geom.lens_cx s - Geom.lens_r s + Geom.lens_outline_w s,
    Geom.lens_cy s - Geom.lens_r s + Geom.lens_outline_w s,
    Geom.lens_cx s + Geom.lens_r s - Geom.lens_outline_w s,
    Geom.lens_cy s + Geom.lens_r s - Geom.lens_outline_w s);
   (Geom.lens_cx s - Geom.shine_r s, Geom.lens_cy s - Geom.shine_r s,
    Geom.lens_cx s + Geom.shine_r s, Geom.lens_cy s + Geom.shine_r s);
   (Geom.handle_end_x s - Geom.cap_r s, Geom.handle_end_y s - Geom.cap_r s,
    Geom.handle_end_x s + Geom.cap_r s, Geom.handle_end_y s + Geom.cap_r s)].

(** The canvas after some calls of [plan]. *)
Definition painted (size : Z) (ops : list DrawOp) : Image :=
  fold_left Image_draw ops (blank size).

(** The outcome of a run, read off the five checked boxes: the run stops
    at the first one that is inside out, with the calls before it
    painted. *)
Definition outcome (size : Z) : Drawing :=
  match checked_boxes size with
  | [bg; outline; fill; arc; cap] =>
      match check_box bg with
      | Some e => Stopped e (painted size [])
      | None =>
      match check_box outline with
      | Some e => Stopped e (painted size (diamond_part size))
      | None =>
      match check_box fill with
      | Some e => Stopped e (painted size (diamond_part size ++ [lens_outline_op size]))
      | None =>
      match check_box arc with
      | Some e => Stopped e (painted size (diamond_part size
                                            ++ [lens_outline_op size; lens_fill_op size]))
      | None =>
      match check_box cap with
      | Some e => Stopped e (painted size (diamond_part size
                                            ++ [lens_outline_op size; lens_fill_op size;
                                                shine_op size; handle_op size]))
      | None => Painted (painted size (plan size))
      end end end end end
  | _ => Painted (painted size (plan size))
  end.

Definition box_within (inner outer : Box) : bool :=
  let '(a0, b0, a1, b1) := inner in
  let '(x0, y0, x1, y1) := outer in
  (x0 <=? a0) && (a1 <=? x1) && (y0 <=? b0) && (b1 <=? y1).

(** The box of the background, [[pad, pad, s - pad, s - pad]]. *)
Definition background_box (s : Z) : Box :=
  (Geom.pad s, Geom.pad s, s - Geom.pad s, s - Geom.pad s).

(** The footprint of a call lies in the box of the background. *)
Definition inside_background (s : Z) (op : DrawOp) : bool :=
  match footprint op with
  | Some b => box_within b (background_box s)
  | None => true
  end.

(** The upper edge of the diamond and of the lens, whichever is higher
    up. *)
Definition band_top (s : Z) : Z :=
  Z.min (Geom.diamond_cy s - Geom.diamond_r s) (Geom.lens_cy s - Geom.lens_r s).

(** The band of the background between its rounded corners, from its
    upper edge down to the shapes. *)
Definition in_top_band (s x y : Z) : bool :=
  (Geom.pad s + Geom.radius s <? x) && (x <? s - Geom.pad s - Geom.radius s)
  && (Geom.pad s <=? y) && (y <? band_top s).

(** The footprint of a call starts at [band_top] or lower. *)
Definition below_band (s : Z) (op : DrawOp) : bool :=
  match footprint op with
  | Some (x0, y0, x1, y1) => band_top s <=? y0
  | None => true
  end.

(** The world [main] leaves when it stops at its file number [k]: the
    directory has been made, the first [k] files are written and their
    lines printed. *)
Definition after_partial (script_dir : string) (k : nat) (w : World) : World :=
  {| dirs := made (icon_dir script_dir) w ∪ dirs w;
     files := foldl (store script_dir) (files w) (take k (artifacts master));
     stdout := stdout w ++ take k messages |}.

(** In the icon directory the first [k] targets are free and target
    number [k], [f], is a directory. *)
Definition first_blocked (script_dir : string) (w : World) (k : nat)
    (f : string) : Prop :=
  filenames !! k = Some f ∧
  (∀ g, g ∈ take k filenames → icon_path script_dir g ∉ dirs w) ∧
  icon_path script_dir f ∈ dirs w ∧
  icon_dir script_dir ∈ dirs w.

(** A world in which [128x128.png] is a directory of the icon
    directory. *)
Definition blocked_world (script_dir : string) : World :=
  {| dirs := {[icon_dir script_dir; icon_path script_dir "128x128.png"]};
     files := ∅; stdout := [] |}.

(** A world in which the path of the icon directory is a regular file. *)
Definition file_world (script_dir : string) : World :=
  {| dirs := ∅; files := {[icon_dir script_dir := PNGFile (blank 1)]};
     stdout := [] |}.

Definition sq (z : Z) : Z := z * z.

(** The square of the distance of a point from the centre of the lens. *)
Definition lens_dist2 (s x y : Z) : Z :=
  sq (x - Geom.lens_cx s) + sq (y - Geom.lens_cy s).

(** The handle starts on the outline ring of the lens - not outside the
    circle of radius [lens_r], not inside the one of radius [lens_r -
    lens_outline_w] - and ends outside the lens, right of and below its
    start. *)
Definition handle_joins_lens (s : Z) : Prop :=
  sq (Geom.lens_r s - Geom.lens_outline_w s)
    <= lens_dist2 s (Geom.handle_start_x s) (Geom.handle_start_y s)
    <= sq (Geom.lens_r s) /\
  sq (Geom.lens_r s) < lens_dist2 s (Geom.handle_end_x s) (Geom.handle_end_y s) /\
  Geom.handle_start_x s <= Geom.handle_end_x s /\
  Geom.handle_start_y s <= Geom.handle_end_y s.

Definition handle_joins_lensb (s : Z) : bool :=
  (sq (Geom.lens_r s - Geom.lens_outline_w s)
     <=? lens_dist2 s (Geom.handle_start_x s) (Geom.handle_start_y s)) &&
  (lens_dist2 s (Geom.handle_start_x s) (Geom.handle_start_y s)
     <=? sq (Geom.lens_r s)) &&
  (sq (Geom.lens_r s)
     <? lens_dist2 s (Geom.handle_end_x s) (Geom.handle_end_y s)) &&
  (Geom.handle_start_x s <=? Geom.handle_end_x s) &&
  (Geom.handle_start_y s <=? Geom.handle_end_y s).

(* ===================================================================== *)
(** * Facts about images and drawing runs *)
(* ===================================================================== *)

Lemma im_ops_fold (ops : list DrawOp) (im : Image) :
  im_ops (fold_left Image_draw ops im) = im_ops im ++ ops.
Proof.
  revert im. induction ops as [|op ops IH]; intros im; simpl.
  - by rewrite app_nil_r.
  - rewrite IH. simpl. by rewrite <- app_assoc.
Qed.

Lemma im_base_fold (ops : list DrawOp) (im : Image) :
  im_base (fold_left Image_draw ops im) = im_base im.
Proof.
  revert im. induction ops as [|op ops IH]; intros im; simpl; [done|].
  by rewrite IH.
Qed.

Lemma im_size_base (im : Image) : im_size (im_base im) = im_size im.
Proof. induction im; simpl; auto. Qed.

Lemma im_mode_base (im : Image) : im_mode (im_base im) = im_mode im.
Proof. induction im; simpl; auto. Qed.

Lemma im_unfold (im : Image) :
  im = fold_left Image_draw (im_ops im) (im_base im).
Proof.
  induction im as [| im IH op |]; simpl; try reflexivity.
  rewrite fold_left_app. simpl. by rewrite <- IH.
Qed.

(** What a run of [draw_icon] leaves on the canvas, whatever its outcome.
    Either the background call was rejected and nothing is painted, or
    the background, the diamond and its chords are painted, followed by
    the calls of the magnifier up to the first rejected one; a run that
    returns has painted them all. *)
Lemma draw_icon_run (size : Z) :
  im_base (canvas (draw_icon size)) = blank size ∧
  (im_ops (canvas (draw_icon size)) = [] ∧
     (∀ img, draw_icon size ≠ Painted img)
   ∨ ∃ drawn todo : list DrawOp,
       im_ops (canvas (draw_icon size)) = diamond_part size ++ drawn ∧
       lens_part size = drawn ++ todo ∧
       (∀ img, draw_icon size = Painted img → todo = [])).
Proof.
  unfold draw_icon, diamond_part, lens_part, chords, Geom.offsets, chord,
    background_op, lens_outline_op, lens_fill_op, shine_op, handle_op, cap_op,
    diamond_pts, blank, draw.rounded_rectangle, draw.polygon, draw.line,
    draw.ellipse, draw.arc, paint_checked.
  unfold Geom.handle_start_x, Geom.handle_start_y, Geom.cap_r, Geom.shine_r,
    Geom.inner_r.
  unfold Geom.pad, Geom.radius, Geom.diamond_cx, Geom.diamond_cy,
    Geom.line_w, Geom.lens_cx, Geom.lens_cy, Geom.lens_outline_w,
    Geom.shine_w, Geom.handle_end_x, Geom.handle_end_y, Geom.handle_w,
    Geom.lens_r, Geom.diamond_r.
  cbv zeta.
  repeat match goal with
  | |- context [int ?x] => generalize (int x); intro
  end.
  cbn [and_then for_each flat_map app].
  destruct (check_box _) eqn:Hbg; cbn [and_then canvas].
  { split; [reflexivity|]. left. split; [reflexivity | discriminate]. }
  repeat match goal with
  | |- context [check_box ?b] =>
      destruct (check_box b) eqn:?; cbn [and_then canvas]
  | |- context [0 <? ?b] =>
      destruct (0 <? b) eqn:?; cbn [and_then canvas app for_each]
  end;
  (split; [reflexivity|]; right; eexists _, _;
   split; [cbn; reflexivity | split; [cbn; reflexivity |]]);
  intros img Himg; first [discriminate Himg | reflexivity].
Qed.

Lemma draw_icon_base (size : Z) :
  im_base (canvas (draw_icon size)) = blank size.
Proof. apply draw_icon_run. Qed.

(** The calls painted by a run are a prefix of [plan]. *)
Lemma draw_icon_prefix (size : Z) :
  ∃ todo, plan size = im_ops (canvas (draw_icon size)) ++ todo.
Proof.
  destruct (draw_icon_run size) as [_ [[-> _]|(drawn & todo & -> & H & _)]].
  - by exists (plan size).
  - exists todo. unfold plan. by rewrite H, app_assoc.
Qed.

(** A run that returns has painted the whole of [plan]. *)
Lemma draw_icon_complete (size : Z) (img : Image) :
  draw_icon size = Painted img → im_ops img = plan size.
Proof.
  intros H.
  destruct (draw_icon_run size) as [_ [[_ Hno]|(drawn & todo & Hops & Hl & Ht)]].
  - by destruct (Hno img).
  - rewrite (Ht img H), app_nil_r in Hl. rewrite H in Hops. cbn in Hops.
    unfold plan. by rewrite Hl.
Qed.

Lemma pixel_untouched (R : Rasteriser) (ops : list DrawOp) (im : Image) (x y : Z) :
  Forall (fun op => may_touch op x y = false) ops ->
  pixel R (fold_left Image_draw ops im) x y = pixel R im x y.
Proof.
  intros H. revert im. induction H as [|op ops Hop _ IH]; intros im; simpl.
  - reflexivity.
  - rewrite IH. simpl. by apply paint_outside.
Qed.

(* ===================================================================== *)
(** * Facts about paths *)
(* ===================================================================== *)

Section paths.
Import os_path.

Lemma app_cons (c : ascii) (x y : string) :
  String c x +:+ y = String c (x +:+ y).
Proof. reflexivity. Qed.

Lemma app_nonempty (x y : string) : y ≠ "" → x +:+ y ≠ "".
Proof. intros Hy. destruct x; [done | by rewrite app_cons]. Qed.

Lemma endswith_sep_app (x y : string) :
  y ≠ "" → endswith_sep (x +:+ y) = endswith_sep y.
Proof.
  intros Hy. induction x as [|c x IH]; [done|].
  rewrite <- IH, app_cons.
  pose proof (app_nonempty x y Hy) as Hne.
  by destruct (x +:+ y).
Qed.

Lemma app_inv_head (x a b : string) : x +:+ a = x +:+ b → a = b.
Proof.
  induction x as [|c x IH]; [done|]. rewrite !app_cons. intros [=]. auto.
Qed.

Lemma app_assoc_s (x y z : string) : (x +:+ y) +:+ z = x +:+ (y +:+ z).
Proof.
  induction x as [|c x IH]; [done|]. rewrite !app_cons. by f_equal.
Qed.

Lemma app_ne_self (x a : string) : a ≠ "" → x +:+ a ≠ x.
Proof.
  intros Ha. induction x as [|c x IH]; [done|]. rewrite app_cons.
  intros [=]. auto.
Qed.

(** Joining a relative name that is not empty: the result ends with
    the name, after a separator unless the path is empty. *)
Lemma join2_relative (path b : string) :
  startswith_sep b = false →
  ∃ x, join2 path b = x +:+ b ∧ (x = "" ∨ endswith_sep x = true).
Proof.
  intros Hb. unfold join2. rewrite Hb.
  destruct (bool_decide (path = "")) eqn:E1; simpl.
  - apply bool_decide_eq_true in E1. subst. exists "". auto.
  - destruct (endswith_sep path) eqn:E2.
    + exists path. auto.
    + exists (path +:+ "/"). rewrite app_assoc_s. split; [done|].
      right. by rewrite endswith_sep_app.
Qed.

Lemma icon_dir_shape (script_dir : string) :
  ∃ x, icon_dir script_dir = x +:+ "icons".
Proof.
  unfold icon_dir, join. cbn [fold_left].
  destruct (join2_relative (join2 (join2 script_dir "..") "src-tauri") "icons")
    as (x & -> & _); [done|]. by exists x.
Qed.

Lemma icon_dir_nonempty (script_dir : string) : icon_dir script_dir ≠ "".
Proof. destruct (icon_dir_shape script_dir) as [x ->]. by apply app_nonempty. Qed.

Lemma icon_dir_no_sep (script_dir : string) :
  endswith_sep (icon_dir script_dir) = false.
Proof.
  destruct (icon_dir_shape script_dir) as [x ->]. by rewrite endswith_sep_app.
Qed.

Lemma icon_path_eq (script_dir filename : string) :
  startswith_sep filename = false →
  icon_path script_dir filename = icon_dir script_dir +:+ ("/" +:+ filename).
Proof.
  intros Hf. unfold icon_path, join. cbn [fold_left]. unfold join2.
  rewrite Hf, icon_dir_no_sep.
  by rewrite bool_decide_eq_false_2 by apply icon_dir_nonempty.
Qed.

Lemma head_app (x name : string) :
  head name = "" → head (x +:+ ("/" +:+ name)) = x +:+ "/".
Proof.
  intros Hn. induction x as [|c x IH].
  - change (head (String sep name) = String sep "").
    cbn [head]. by rewrite Hn.
  - rewrite (app_cons c x ("/" +:+ name)), (app_cons c x "/").
    cbn [head]. rewrite IH.
    pose proof (app_nonempty x "/" ltac:(done)) as Hne.
    by destruct (x +:+ "/").
Qed.

Lemma rstrip_sep_app (x : string) : rstrip_sep (x +:+ "/") = rstrip_sep x.
Proof.
  induction x as [|c x IH]; [done|]. rewrite app_cons. cbn [rstrip_sep].
  by rewrite IH.
Qed.

Lemma rstrip_sep_id (x : string) : endswith_sep x = false → rstrip_sep x = x.
Proof.
  induction x as [|c x IH]; [done|]. intros H. simpl.
  destruct x as [|c' x].
  - simpl in H |- *. by rewrite H.
  - rewrite IH by exact H. done.
Qed.

Lemma dirname_icon_path (script_dir filename : string) :
  startswith_sep filename = false → head filename = "" →
  dirname (icon_path script_dir filename) = icon_dir script_dir.
Proof.
  intros Hf Hh. rewrite icon_path_eq by done. unfold dirname.
  rewrite head_app by done.
  rewrite rstrip_sep_app, rstrip_sep_id by apply icon_dir_no_sep.
  pose proof (icon_dir_nonempty script_dir).
  by destruct (icon_dir script_dir).
Qed.

Lemma icon_path_inj (script_dir f g : string) :
  startswith_sep f = false → startswith_sep g = false →
  icon_path script_dir f = icon_path script_dir g → f = g.
Proof.
  intros Hf Hg. rewrite !icon_path_eq by done.
  intros H. by do 2 apply app_inv_head in H.
Qed.

Lemma icon_path_ne_dir (script_dir f : string) :
  startswith_sep f = false → icon_path script_dir f ≠ icon_dir script_dir.
Proof.
  intros Hf. rewrite icon_path_eq by done. by apply app_ne_self.
Qed.
End paths.

(* ===================================================================== *)
(** * Running [main] *)
(* ===================================================================== *)

Lemma draw_icon_SIZE : draw_icon SIZE = Painted master.
Proof. vm_compute. reflexivity. Qed.

Lemma bind_ok {A B : Type} (m : IO A) (k : A → IO B) (w w' : World) (a : A) :
  m w = (Ok a, w') → bind m k w = k a w'.
Proof. intros H. unfold bind. by rewrite H. Qed.

(** ** Making directories *)

Lemma length_app (x y : string) :
  String.length (x +:+ y) = (String.length x + String.length y)%nat.
Proof. induction x as [|c x IH]; [done|]. rewrite app_cons. simpl. by rewrite IH. Qed.

Lemma length_head (p : string) :
  (String.length (os_path.head p) <= String.length p)%nat.
Proof.
  induction p as [|c p IH]; [done|]. cbn [os_path.head].
  destruct (os_path.head p) as [|c' h].
  - destruct (bool_decide (c = os_path.sep)); simpl; lia.
  - simpl in IH |- *. lia.
Qed.

Lemma length_rstrip_sep (p : string) :
  (String.length (os_path.rstrip_sep p) <= String.length p)%nat.
Proof.
  induction p as [|c p IH]; [done|]. cbn [os_path.rstrip_sep].
  destruct (os_path.rstrip_sep p) as [|c' h].
  - destruct (bool_decide (c = os_path.sep)); simpl; lia.
  - simpl in IH |- *. lia.
Qed.

Lemma length_dirname (p : string) :
  (String.length (os_path.dirname p) <= String.length p)%nat.
Proof.
  unfold os_path.dirname.
  pose proof (length_head p) as H1.
  pose proof (length_rstrip_sep (os_path.head p)) as H2.
  destruct (os_path.rstrip_sep (os_path.head p)); [done|]. lia.
Qed.

(** No ancestor is longer than the path. *)
Lemma length_ancestors (n : nat) (p a : string) :
  a ∈ ancestors_upto n p → (String.length a <= String.length p)%nat.
Proof.
  revert p. induction n as [|n IH]; intros p Ha; cbn [ancestors_upto] in Ha.
  - by apply not_elem_of_nil in Ha.
  - pose proof (length_dirname p) as Hd.
    destruct (is_top (os_path.dirname p)); [by apply not_elem_of_nil in Ha|].
    apply elem_of_cons in Ha as [->|Ha]; [done|].
    apply IH in Ha. lia.
Qed.

Lemma missing_spec (w : World) (l : list string) :
  (∀ a, a ∈ (missing w l).1 → a ∈ l ∧ listed w a = false) ∧
  (∀ d, (missing w l).2 = Some d → d ∈ l ∧ listed w d = true).
Proof.
  induction l as [|b l [IH1 IH2]]; cbn [missing].
  - split; [intros a Ha; by apply not_elem_of_nil in Ha | done].
  - destruct (listed w b) eqn:Hb; cbn [fst snd].
    + split; [intros a Ha; by apply not_elem_of_nil in Ha|].
      intros d [= <-]. split; [apply list_elem_of_here | done].
    + destruct (missing w l) as [m e]. cbn [fst snd] in *. split.
      * intros a Ha. apply elem_of_cons in Ha as [->|Ha].
        -- split; [apply list_elem_of_here | done].
        -- destruct (IH1 a Ha). split; [by apply list_elem_of_further | done].
      * intros d Hd. destruct (IH2 d Hd). split; [by apply list_elem_of_further | done].
Qed.

(** What [makedirs] makes is the name or an ancestor of it, and was not
    there. *)
Lemma made_spec (name : string) (w : World) (p : string) :
  p ∈ made name w → (p = name ∨ p ∈ ancestors name) ∧ p ∉ dirs w.
Proof.
  unfold made. destruct (decide (name ∈ dirs w)) as [Hd|Hd].
  - intros H. by apply not_elem_of_empty in H.
  - rewrite elem_of_list_to_set. intros H.
    apply elem_of_cons in H as [->|H]; [by split; [left|]|].
    apply (missing_spec w) in H as [H1 H2]. split; [by right|].
    unfold listed in H2. apply orb_false_iff in H2 as [H2 _].
    by apply bool_decide_eq_false in H2.
Qed.

Lemma makedirs_ok (name : string) (w : World) :
  makeable name w →
  makedirs name w =
    (Ok tt, {| dirs := made name w ∪ dirs w; files := files w; stdout := stdout w |}).
Proof.
  intros [Hf Hd]. unfold makedirs. rewrite decide_False by done.
  destruct (decide (name ∈ dirs w)) as [|Hn]; [done|].
  destruct Hd as [Hd|Ha]; [done|].
  pose proof (missing_spec w (ancestors name)) as [_ He].
  destruct (missing w (ancestors name)) as [m [d|]]; [|done].
  destruct (He d eq_refl) as [Hin _].
  by rewrite decide_False by by apply Ha.
Qed.

Lemma makedirs_dir (name : string) (w : World) :
  name ∈ made name w ∪ dirs w.
Proof.
  unfold made. destruct (decide (name ∈ dirs w)); [set_solver|].
  apply elem_of_union_l, elem_of_list_to_set, list_elem_of_here.
Qed.

(** A file of the icon directory is not among the directories made for
    it. *)
Lemma icon_path_not_made (script_dir f : string) (w : World) :
  os_path.startswith_sep f = false →
  icon_path script_dir f ∉ made (icon_dir script_dir) w.
Proof.
  intros Hf H. apply made_spec in H as [[H|H] _].
  - by apply icon_path_ne_dir in H.
  - apply length_ancestors in H. rewrite icon_path_eq in H by done.
    rewrite !length_app in H. simpl in H. lia.
Qed.

(** Writing a file of the icon directory once the directory exists. *)
Lemma write_icon_ok (script_dir filename : string) (c : FileContent) (w : World) :
  os_path.startswith_sep filename = false → os_path.head filename = "" →
  icon_dir script_dir ∈ dirs w →
  icon_path script_dir filename ∉ dirs w →
  write_file (icon_path script_dir filename) c w =
    (Ok tt, {| dirs := dirs w;
               files := <[icon_path script_dir filename := c]> (files w);
               stdout := stdout w |}).
Proof.
  intros Hs Hh Hd Hp. unfold write_file.
  rewrite decide_False by done.
  rewrite decide_True; [done|].
  right. by rewrite dirname_icon_path.
Qed.

(** The file names of [main] are plain names. *)
Lemma filenames_plain (f : string) :
  f ∈ filenames → os_path.startswith_sep f = false ∧ os_path.head f = "".
Proof.
  revert f. apply Forall_forall. unfold filenames.
  repeat (constructor; [by split|]). constructor.
Qed.

(** The frames of [icon.ico]: [save] is called on the 16 x 16 image, so
    every other requested size is bigger than it and is dropped. *)
Lemma ico_frames_export (m : Image) :
  ico_frames (resize m (16, 16) LANCZOS)
    [(16, 16); (24, 24); (32, 32); (48, 48); (64, 64); (128, 128); (256, 256)]
    [resize m (24, 24) LANCZOS; resize m (32, 32) LANCZOS;
     resize m (48, 48) LANCZOS; resize m (64, 64) LANCZOS;
     resize m (128, 128) LANCZOS; resize m (256, 256) LANCZOS]
  = [resize m (16, 16) LANCZOS].
Proof. vm_compute. reflexivity. Qed.

Lemma export_spec (script_dir : string) (m : Image) (w : World) :
  icon_dir script_dir ∈ dirs w →
  (∀ f, f ∈ filenames → icon_path script_dir f ∉ dirs w) →
  export (icon_dir script_dir) m w = (Ok tt, after_export script_dir m w).
Proof.
  intros Hex Hin.
  unfold export, for_, bind, save.PNG, save.ICO, save.ICNS, print, ret.
  cbn [map]. rewrite ico_frames_export.
  repeat match goal with
  | |- context [os_path.join (icon_dir script_dir) [?f]] =>
      change (os_path.join (icon_dir script_dir) [f]) with (icon_path script_dir f)
  end.
  repeat (rewrite write_icon_ok;
          [ cbn [dirs files stdout]
          | reflexivity
          | reflexivity
          | exact Hex
          | apply Hin, list_elem_of_In; vm_compute; tauto ]).
  unfold after_export. do 2 f_equal.
  rewrite <- !app_assoc. reflexivity.
Qed.

Lemma main_spec (script_dir : string) (w : World) :
  writable script_dir w →
  main script_dir w = (Ok tt, after_main script_dir w).
Proof.
  intros [Hdir Htargets].
  unfold main. fold (icon_dir script_dir).
  erewrite bind_ok by (by apply makedirs_ok).
  unfold call_draw_icon. rewrite draw_icon_SIZE.
  erewrite bind_ok by reflexivity.
  apply export_spec; cbn [dirs]; [apply makedirs_dir|].
  intros f Hf. apply not_elem_of_union. split; [|by apply Htargets].
  apply icon_path_not_made. by apply filenames_plain.
Qed.

Ltac icon_paths_differ :=
  let E := fresh in
  intros E; apply icon_path_inj in E; [discriminate E | reflexivity | reflexivity].

Lemma after_export_lookup (script_dir : string) (m : Image) (w : World)
    (f : string) (c : FileContent) :
  (f, c) ∈ artifacts m →
  files (after_export script_dir m w) !! icon_path script_dir f = Some c.
Proof.
  intros H. apply list_elem_of_In in H.
  unfold after_export, artifacts in *.
  cbn [files foldl]. unfold store. cbn [fst snd]. cbn [In] in H.
  repeat (destruct H as [[= <- <-]|H];
          [ repeat first [ by rewrite lookup_insert_eq
                         | rewrite lookup_insert_ne by icon_paths_differ ] |]).
  destruct H.
Qed.

Lemma after_export_lookup_other (script_dir : string) (m : Image) (w : World)
    (p : string) :
  (∀ f, f ∈ filenames → p ≠ icon_path script_dir f) →
  files (after_export script_dir m w) !! p = files w !! p.
Proof.
  intros H. unfold after_export, artifacts.
  cbn [files foldl]. unfold store. cbn [fst snd].
  rewrite !lookup_insert_ne; [done|..];
    (intros E; eapply H; [|symmetry; exact E];
     apply list_elem_of_In; vm_compute; tauto).
Qed.

Lemma after_export_dom (script_dir : string) (m : Image) (w : World) :
  dom (files (after_export script_dir m w))
  = dom (files w) ∪ list_to_set (icon_path script_dir <$> filenames).
Proof.
  unfold after_export, artifacts, filenames.
  cbn [files foldl]. unfold store. cbn [fst snd].
  rewrite !dom_insert_L. set_solver.
Qed.

Lemma writable_after_main (script_dir : string) (w : World) :
  writable script_dir w → writable script_dir (after_main script_dir w).
Proof.
  intros [[Hfile Hdir] Htargets]. split; [split|].
  - unfold after_main. rewrite after_export_dom. cbn [files].
    apply not_elem_of_union. split; [done|].
    rewrite elem_of_list_to_set, list_elem_of_fmap.
    intros (f & E & Hf). symmetry in E. revert E.
    apply icon_path_ne_dir. by apply filenames_plain.
  - left. cbn [after_main after_export dirs]. apply makedirs_dir.
  - intros f Hf. cbn [after_main after_export dirs].
    apply not_elem_of_union. split; [|by apply Htargets].
    apply icon_path_not_made. by apply filenames_plain.
Qed.

(* ===================================================================== *)
(** * Properties of [draw_icon] *)
(* ===================================================================== *)

(** The calls painted so far are calls of [plan]. *)
Lemma drawn_in_plan (size : Z) (op : DrawOp) :
  op ∈ im_ops (canvas (draw_icon size)) → op ∈ plan size.
Proof.
  destruct (draw_icon_prefix size) as (todo & ->). set_solver.
Qed.

(** A run that returns has painted the whole of [plan] on the blank
    canvas. *)
Lemma draw_icon_returns (size : Z) (img : Image) :
  draw_icon size = Painted img →
  img = fold_left Image_draw (plan size) (blank size).
Proof.
  intros H. rewrite (im_unfold img).
  rewrite (draw_icon_complete size img H).
  pose proof (draw_icon_base size) as Hb. rewrite H in Hb. cbn in Hb.
  by rewrite Hb.
Qed.

(** What the caller gets when [draw_icon] returns: an RGBA image of
    [size] x [size] pixels. *)
Lemma draw_icon_returned_image (size : Z) (img : Image) :
  draw_icon size = Painted img →
  im_size img = (size, size) ∧ im_mode img = ModeRGBA.
Proof.
  intros H. apply draw_icon_returns in H. subst img.
  rewrite <- im_size_base, <- im_mode_base, im_base_fold. done.
Qed.

Lemma draw_icon_raises_below_20 (size : Z) :
  1 ≤ size ≤ 19 →
  ∃ img, draw_icon size
         = Stopped (ValueError "x1 must be greater than or equal to x0") img.
Proof.
  intros H.
  assert (Hc : forallb raises_value_error (seqZ 1 19) = true)
    by (vm_cast_no_check (eq_refl true)).
  rewrite forallb_forall in Hc.
  specialize (Hc size ltac:(apply list_elem_of_In, elem_of_seqZ; lia)).
  unfold raises_value_error in Hc.
  destruct (draw_icon size) as [|[msg| | | | | | |] img]; try done.
  apply bool_decide_eq_true in Hc as ->. by exists img.
Qed.

Lemma draw_icon_returns_from_20 (size : Z) :
  20 ≤ size ≤ 4096 →
  ∃ img, draw_icon size = Painted img ∧
    im_size img = (size, size) ∧ im_mode img = ModeRGBA.
Proof.
  intros H.
  assert (Hc : forallb returns (seqZ 20 4077) = true)
    by (vm_cast_no_check (eq_refl true)).
  rewrite forallb_forall in Hc.
  specialize (Hc size ltac:(apply list_elem_of_In, elem_of_seqZ; lia)).
  unfold returns in Hc. destruct (draw_icon size) as [img|] eqn:E; [|done].
  exists img. split; [done|]. by apply draw_icon_returned_image.
Qed.

(** C1.  [draw_icon] does not return an image for every positive size:
    at size 16 the lens radius is 3 and the outline width is floored at
    4, so the box of the glass fill, [[9, 7, 7, 5]], is inside out and
    Pillow's [ellipse] raises [ValueError]. *)
Theorem draw_icon_16_raises :
  Geom.lens_r 16 = 3 ∧ Geom.lens_outline_w 16 = 4 ∧
  lens_fill_op 16 = Ellipse (9, 7, 7, 5) (Some (140, 200, 255, 35)) None 1 ∧
  ∃ img, draw_icon 16
         = Stopped (ValueError "x1 must be greater than or equal to x0") img.
Proof. repeat split; try (vm_compute; reflexivity). eexists. vm_compute. reflexivity. Qed.

Ltac name_geometry size :=
  generalize (Geom.diamond_cx size) (Geom.diamond_cy size) (Geom.diamond_r size)
    (Geom.line_w size) (Geom.inner_r size) (Geom.pad size) (Geom.radius size)
    (Geom.lens_cx size) (Geom.lens_cy size) (Geom.lens_r size)
    (Geom.lens_outline_w size) (Geom.shine_r size) (Geom.shine_w size)
    (Geom.handle_start_x size) (Geom.handle_start_y size)
    (Geom.handle_end_x size) (Geom.handle_end_y size) (Geom.handle_w size)
    (Geom.cap_r size); do 19 intro.

Lemma filter_chords_diamond (size : Z) :
  filter (λ op, is_chord op = true) (diamond_part size) = chords size.
Proof.
  unfold diamond_part, chords, chord, Geom.offsets, background_op.
  name_geometry size. cbn [flat_map].
  repeat match goal with
  | |- context [0 <? ?b] => destruct (0 <? b)
  end; reflexivity.
Qed.

Lemma filter_chords_lens (size : Z) (drawn todo : list DrawOp) :
  lens_part size = drawn ++ todo → filter (λ op, is_chord op = true) drawn = [].
Proof.
  intros H.
  assert (E : filter (λ op, is_chord op = true) (lens_part size) = [])
    by reflexivity.
  rewrite H, filter_app in E. by apply app_eq_nil in E as [E _].
Qed.

Lemma chords_spec (size : Z) :
  chords size
  = omap (spec_chord (Geom.diamond_cx size) (Geom.diamond_cy size)
            (Geom.diamond_r size) (Geom.line_w size))
      (Geom.offsets size).
Proof.
  unfold chords, chord, spec_chord, Geom.offsets.
  name_geometry size. cbn [flat_map omap list_omap].
  rewrite !Z.leb_antisym.
  repeat match goal with
  | |- context [0 <? ?b] => destruct (0 <? b)
  end; reflexivity.
Qed.

(** C4.  Once the background is painted, the chords on the canvas are
    those of the specification for the three offsets of the script, in
    that order: each has half width [diamond_r - |offset|] and end points
    shortened by the stroke width, and an offset whose half width is not
    positive contributes no chord. *)
Theorem chords_clipped_to_diamond (size : Z) :
  im_ops (canvas (draw_icon size)) ≠ [] →
  filter (λ op, is_chord op = true) (im_ops (canvas (draw_icon size)))
  = omap (spec_chord (Geom.diamond_cx size) (Geom.diamond_cy size)
            (Geom.diamond_r size) (Geom.line_w size))
      (Geom.offsets size).
Proof.
  intros Hne.
  destruct (draw_icon_run size) as [_ [[H _]|(drawn & todo & -> & Hl & _)]];
    [done|].
  rewrite filter_app, filter_chords_diamond, (filter_chords_lens _ _ _ Hl).
  rewrite app_nil_r. apply chords_spec.
Qed.

(** At size 5 the diamond radius is 1: the offsets are -1, 0 and 0, the
    first has half width 0 and is left out, the other two give the same
    chord. *)
Lemma chords_clipped_to_diamond_witness :
  im_ops (canvas (draw_icon 5)) ≠ [] ∧
  Geom.offsets 5 = [-1; 0; 0] ∧
  filter (λ op, is_chord op = true) (im_ops (canvas (draw_icon 5)))
  = [Line [(3, 2); (1, 2)] line_color 2; Line [(3, 2); (1, 2)] line_color 2].
Proof.
  assert (H : im_ops (canvas (draw_icon 5)) ≠ []) by (vm_compute; discriminate).
  split; [exact H|]. split; [vm_compute; reflexivity|].
  rewrite (chords_clipped_to_diamond 5 H). vm_compute. reflexivity.
Defined.

Lemma plan_strokes (size : Z) (op : DrawOp) (w lo : Z) :
  op ∈ plan size → stroke_floor op = Some (w, lo) →
  lo ≤ w ∧
  w = match op with
      | Line _ fill _ => if bool_decide (fill = line_color)
                         then Geom.line_w size else Geom.handle_w size
      | Ellipse _ _ _ _ => Geom.lens_outline_w size
      | _ => Geom.shine_w size
      end.
Proof.
  intros Hop Hs.
  assert (H2 : 2 ≤ Geom.line_w size) by (unfold Geom.line_w; lia).
  assert (H4 : 4 ≤ Geom.lens_outline_w size) by (unfold Geom.lens_outline_w; lia).
  assert (H2' : 2 ≤ Geom.shine_w size) by (unfold Geom.shine_w; lia).
  assert (H6 : 6 ≤ Geom.handle_w size) by (unfold Geom.handle_w; lia).
  revert Hop Hs H2 H4 H2' H6.
  unfold plan, diamond_part, lens_part, chords, chord, Geom.offsets,
    background_op, lens_outline_op, lens_fill_op, shine_op, handle_op, cap_op.
  name_geometry size. intros Hop Hs H2 H4 H2' H6. cbn [flat_map] in Hop.
  repeat match type of Hop with
  | context [0 <? ?b] => destruct (0 <? b)
  end;
  cbn [app] in Hop; apply list_elem_of_In in Hop; cbn [In] in Hop;
  repeat (destruct Hop as [<-|Hop];
          [first [discriminate Hs | by injection Hs as <- <-]|]);
  destruct Hop.
Qed.

(** C10.  Whatever the size, every stroke [draw_icon] paints is at least
    as wide as its floor: 2 pixels for the chords of the diamond, 4 for
    the outline of the lens, 2 for the shine arc and 6 for the handle;
    the widths are the script's [line_w], [lens_outline_w], [shine_w] and
    [handle_w]. *)
Theorem stroke_widths_floored (size : Z) (op : DrawOp) (w lo : Z) :
  0 < size →
  op ∈ im_ops (canvas (draw_icon size)) →
  stroke_floor op = Some (w, lo) →
  lo ≤ w ∧
  w = match op with
      | Line _ fill _ => if bool_decide (fill = line_color)
                         then Geom.line_w size else Geom.handle_w size
      | Ellipse _ _ _ _ => Geom.lens_outline_w size
      | _ => Geom.shine_w size
      end.
Proof. intros _ Hop. apply plan_strokes. by apply drawn_in_plan. Qed.

(** At size 20, the smallest at which the icon is drawn to the end, the
    handle is 6 pixels wide although 0.055 * 20 is 1.1. *)
Lemma stroke_widths_floored_witness :
  int (20 *! lit_0_055) = 1 ∧ 6 ≤ 6 ∧ 6 = Geom.handle_w 20.
Proof.
  split; [vm_compute; reflexivity|].
  apply (stroke_widths_floored 20
           (Line [(12, 10); (15, 15)] (180, 190, 210, 255) 6) 6 6).
  - lia.
  - apply list_elem_of_In. vm_compute. tauto.
  - reflexivity.
Defined.

(** Python's [-r // 3] is the floor of [-r / 3]: it has the magnitude of
    [r // 3] exactly when 3 divides [r]. *)
Lemma floor_offsets_symmetric (r : Z) : (- r) / 3 = - (r / 3) ↔ r mod 3 = 0.
Proof.
  pose proof (Z.div_mod r 3 ltac:(lia)) as H1.
  pose proof (Z.mod_pos_bound r 3 ltac:(lia)) as H2.
  pose proof (Z.div_mod (- r) 3 ltac:(lia)) as H3.
  pose proof (Z.mod_pos_bound (- r) 3 ltac:(lia)) as H4.
  lia.
Qed.

(** At the master size the diamond radius is 225, a multiple of 3, and
    the chords are symmetric. *)
Lemma offsets_master : Geom.diamond_r SIZE = 225 ∧ Geom.offsets SIZE = [-75; 0; 75].
Proof. split; vm_compute; reflexivity. Qed.

(** C5.  The chords are not placed symmetrically at every size: at size
    512 the diamond is centred at height 225 with radius 112, the offsets
    [-112 // 3] and [112 // 3] are -38 and 37, and the chords of the
    returned image lie at heights 187, 225 and 262. *)
Theorem chords_512_not_symmetric :
  ∃ img, draw_icon 512 = Painted img ∧
    Geom.diamond_cy 512 = 225 ∧ Geom.diamond_r 512 = 112 ∧
    Geom.offsets 512 = [-38; 0; 37] ∧
    chord_heights (im_ops img) = [225 - 38; 225; 225 + 37].
Proof. eexists. repeat split; vm_compute; reflexivity. Qed.

(* ===================================================================== *)
(** * Pixels of the icon *)
(* ===================================================================== *)

(** A pixel no call of [plan] can reach keeps the colour of the blank
    canvas. *)
Lemma untouched_pixel (R : Rasteriser) (size : Z) (img : Image) (x y : Z) :
  draw_icon size = Painted img →
  0 ≤ x < size → 0 ≤ y < size →
  Forall (λ op, may_touch op x y = false) (im_ops img) →
  getpixel R img (x, y) = Some (0, 0, 0, 0).
Proof.
  intros Himg Hx Hy Hops.
  pose proof (draw_icon_returned_image size img Himg) as [Hsize _].
  unfold getpixel. rewrite Hsize.
  replace ((0 <=? x) && (x <? size) && (0 <=? y) && (y <? size)) with true
    by (symmetry; rewrite !andb_true_iff; repeat split; lia).
  f_equal. rewrite (im_unfold img).
  rewrite pixel_untouched by done.
  pose proof (draw_icon_base size) as Hb. rewrite Himg in Hb. cbn in Hb.
  by rewrite Hb.
Qed.

(** At the master size the corner pixel lies outside every footprint: the
    background starts at 61, the other shapes further in. *)
Lemma corner_untouched :
  Forall (λ op, may_touch op 0 0 = false) (im_ops master).
Proof. vm_compute im_ops. repeat (constructor; [reflexivity|]). constructor. Qed.

Lemma corner_pixel_transparent (R : Rasteriser) :
  getpixel R master (0, 0) = Some (0, 0, 0, 0).
Proof.
  apply (untouched_pixel R SIZE); [apply draw_icon_SIZE | done | done |].
  apply corner_untouched.
Qed.

(** C6, as stated, fails: not every pixel of the returned canvas is
    opaque.  The corner pixel of the master image has alpha 0. *)
Lemma not_every_pixel_opaque :
  ¬ (∀ (R : Rasteriser) (size : Z) (img : Image) (x y : Z),
       0 < size → draw_icon size = Painted img →
       0 ≤ x < size → 0 ≤ y < size →
       alpha <$> getpixel R img (x, y) = Some 255).
Proof.
  intros H.
  specialize (H box_rasteriser SIZE master 0 0 ltac:(done) draw_icon_SIZE
                ltac:(done) ltac:(done)).
  rewrite corner_pixel_transparent in H. discriminate H.
Qed.

(* ===================================================================== *)
(** * Proportionality of the geometry *)
(* ===================================================================== *)

(** The chord stroke is 2 pixels at sizes 1 and 100: no fraction of the
    size gives that. *)
Lemma line_w_not_a_fraction : ¬ fraction_of_size Geom.line_w.
Proof.
  intros (p & q & Hq & H).
  pose proof (H 1 ltac:(lia)) as H1. pose proof (H 100 ltac:(lia)) as H100.
  change (Geom.line_w 1) with 2 in H1. change (Geom.line_w 100) with 2 in H100.
  pose proof (Z.mul_div_le (1 * p) q Hq).
  pose proof (Z.mul_succ_div_gt (1 * p) q Hq).
  pose proof (Z.mul_div_le (100 * p) q Hq).
  pose proof (Z.mul_succ_div_gt (100 * p) q Hq).
  nia.
Qed.

(** The padding is 0 at size 10 and 1 at size 20. *)
Lemma pad_not_linear : ¬ scales_linearly Geom.pad.
Proof.
  intros H. specialize (H 2 10 ltac:(lia) ltac:(lia)).
  vm_compute in H. discriminate H.
Qed.

(** C3, as stated, fails: the stroke widths are absolute pixel counts at
    small sizes, and truncation keeps offsets and radii from scaling
    linearly. *)
Lemma not_all_dimensions_proportional :
  ¬ ((∀ d, d ∈ stroke_widths ++ offsets_and_radii → fraction_of_size d) ∧
     (∀ d, d ∈ offsets_and_radii → scales_linearly d)).
Proof.
  intros [H _]. apply line_w_not_a_fraction, H.
  apply elem_of_app. left. unfold stroke_widths. apply list_elem_of_here.
Qed.

(* ===================================================================== *)
(** * Properties of [main] *)
(* ===================================================================== *)

Lemma writable_empty (script_dir : string) : writable script_dir empty_world.
Proof.
  split; [split|].
  - cbn [empty_world files]. rewrite dom_empty_L. apply not_elem_of_empty.
  - right. intros p _. cbn [empty_world files]. rewrite dom_empty_L.
    apply not_elem_of_empty.
  - intros f _. apply not_elem_of_empty.
Qed.

Lemma filenames_artifacts (m : Image) (f : string) :
  f ∈ filenames → ∃ c, (f, c) ∈ artifacts m.
Proof.
  intros H. apply list_elem_of_In in H. cbn [filenames In] in H.
  repeat (destruct H as [<-|H];
          [eexists; apply list_elem_of_In; cbn [artifacts In]; tauto|]).
  destruct H.
Qed.

(** C2.  A default run returns (exit status 0), prints the six "Saved"
    lines and the banner, and writes the six files - but [icon.ico] does
    not embed the seven sizes: [save] is called on the 16 x 16 image, the
    ICO writer drops every requested size bigger than that image, and the
    file holds the 16 x 16 frame alone. *)
Theorem main_writes_single_frame_ico (script_dir : string) (w : World) :
  writable script_dir w →
  ∃ w', main script_dir w = (Ok tt, w') ∧
    exit_status (fst (main script_dir w)) = 0 ∧
    stdout w' = stdout w ++ messages ∧
    dom (files w') = dom (files w) ∪ list_to_set (icon_path script_dir <$> filenames) ∧
    (∀ f c, (f, c) ∈ artifacts master →
       files w' !! icon_path script_dir f = Some c) ∧
    ∃ frames, files w' !! icon_path script_dir "icon.ico" = Some (ICOFile frames) ∧
      im_size <$> frames = [(16, 16)] ∧
      im_size <$> frames ≠ [(16, 16); (24, 24); (32, 32); (48, 48); (64, 64);
                            (128, 128); (256, 256)].
Proof.
  intros Hw. exists (after_main script_dir w).
  rewrite (main_spec script_dir w Hw).
  split; [done|]. split; [done|]. split; [done|].
  split; [unfold after_main; by rewrite after_export_dom|].
  split; [intros f c; apply after_export_lookup|].
  exists [resize master (16, 16) LANCZOS]. split; [|done].
  apply after_export_lookup, list_elem_of_In. cbn [artifacts In]. tauto.
Qed.

Lemma main_writes_single_frame_ico_witness :
  ∃ w', main "scripts" empty_world = (Ok tt, w') ∧
    stdout w' = messages ∧
    files w' !! "scripts/../src-tauri/icons/icon.ico"
    = Some (ICOFile [resize master (16, 16) LANCZOS]).
Proof.
  destruct (main_writes_single_frame_ico "scripts" empty_world
              (writable_empty "scripts")) as (w' & Hrun & _ & Hout & _ & Hf & _).
  exists w'. split; [exact Hrun|]. split; [exact Hout|].
  apply (Hf "icon.ico"), list_elem_of_In. cbn [artifacts In]. tauto.
Defined.

(** ** The export phase twice *)

Lemma after_export_idem (script_dir : string) (m : Image) (w : World) :
  files (after_export script_dir m (after_export script_dir m w))
  = files (after_export script_dir m w).
Proof.
  apply map_eq. intros p.
  destruct (decide (p ∈ icon_path script_dir <$> filenames)) as [Hp|Hp].
  - apply list_elem_of_fmap in Hp as (f & -> & Hf).
    destruct (filenames_artifacts m f Hf) as [c Hc].
    by rewrite !(after_export_lookup _ _ _ f c).
  - rewrite !after_export_lookup_other; [done|..];
      intros f Hf ->; apply Hp, list_elem_of_fmap; eauto.
Qed.

(** ** Provenance of the outputs *)

(** The images of [icon.icns]: the 512 pixel image it is made from for
    the two entries of that side, and bicubic resizings of it. *)
Lemma icns_images (m : Image) :
  (icns_entries (resize m (512, 512) LANCZOS)).*2
  = [Image_resize (resize m (512, 512) LANCZOS) (128, 128) BICUBIC;
     Image_resize (resize m (512, 512) LANCZOS) (256, 256) BICUBIC;
     resize m (512, 512) LANCZOS;
     Image_resize (resize m (512, 512) LANCZOS) (1024, 1024) BICUBIC;
     Image_resize (resize m (512, 512) LANCZOS) (32, 32) BICUBIC;
     Image_resize (resize m (512, 512) LANCZOS) (64, 64) BICUBIC;
     Image_resize (resize m (512, 512) LANCZOS) (256, 256) BICUBIC;
     resize m (512, 512) LANCZOS].
Proof. vm_compute. reflexivity. Qed.

Lemma artifacts_derived (m : Image) (f : string) (c : FileContent) :
  (f, c) ∈ artifacts m →
  images_of c ≠ [] ∧ Forall (derived_from m) (images_of c).
Proof.
  intros H. apply list_elem_of_In in H. cbn [artifacts In] in H.
  repeat (destruct H as [[= <- <-]|H];
          [ cbn [images_of]; rewrite ?icns_images; split; [done|];
            repeat (constructor; [cbn; auto|]); constructor |]).
  destruct H.
Qed.

(** C8.  [main] draws once, at [SIZE], and every image in every file it
    writes is that one master image resized - once for the PNG files and
    the frame of [icon.ico], and for [icon.icns], whose eight entries
    Pillow makes from the 512 pixel image it is handed, once or twice;
    none is the result of another drawing, and no other file changes. *)
Theorem outputs_resampled_from_master (script_dir : string) (w : World) :
  writable script_dir w →
  ∃ m w', draw_icon SIZE = Painted m ∧
    main script_dir w = (Ok tt, w') ∧
    (∀ f, f ∈ filenames →
       ∃ c, files w' !! icon_path script_dir f = Some c ∧
         images_of c ≠ [] ∧ Forall (derived_from m) (images_of c)) ∧
    (∃ entries,
       files w' !! icon_path script_dir "icon.icns" = Some (ICNSFile entries) ∧
       im_size <$> entries.*2
       = [(128, 128); (256, 256); (512, 512); (1024, 1024);
          (32, 32); (64, 64); (256, 256); (512, 512)]) ∧
    (∀ p, (∀ f, f ∈ filenames → p ≠ icon_path script_dir f) →
       files w' !! p = files w !! p).
Proof.
  intros Hw. exists master, (after_main script_dir w).
  split; [apply draw_icon_SIZE|]. split; [by apply main_spec|].
  split; [|split].
  - intros f Hf. destruct (filenames_artifacts master f Hf) as [c Hc].
    exists c. split; [by apply after_export_lookup|].
    by apply (artifacts_derived master f).
  - eexists. split.
    + apply after_export_lookup, list_elem_of_In. cbn [artifacts In].
      do 4 right. left. reflexivity.
    + rewrite icns_images. reflexivity.
  - intros p Hp. unfold after_main. by rewrite after_export_lookup_other.
Qed.

Lemma outputs_resampled_from_master_witness :
  ∃ w' c, main "scripts" empty_world = (Ok tt, w') ∧
    files w' !! icon_path "scripts" "icon.icns" = Some c ∧
    Forall (derived_from master) (images_of c).
Proof.
  destruct (outputs_resampled_from_master "scripts" empty_world
              (writable_empty "scripts")) as (m & w' & Hm & Hrun & Hf & _).
  destruct (Hf "icon.icns") as (c & Hc & _ & Hall).
  { apply list_elem_of_In. cbn [filenames In]. tauto. }
  exists w', c. split; [exact Hrun|]. split; [exact Hc|].
  rewrite draw_icon_SIZE in Hm. injection Hm as <-. exact Hall.
Defined.

(** ** The output directory *)

(** In a file system, what lies above something that is there is a
    directory. *)
Lemma ancestors_listed (w : World) (n : nat) (p a : string) :
  well_formed w → listed w p = true → a ∈ ancestors_upto n p → a ∈ dirs w.
Proof.
  intros [Hwf _]. revert p. induction n as [|n IH]; intros p Hp Ha;
    cbn [ancestors_upto] in Ha.
  - by apply not_elem_of_nil in Ha.
  - destruct (Hwf p Hp) as [Htop|Hd].
    + rewrite Htop in Ha. by apply not_elem_of_nil in Ha.
    + destruct (is_top (os_path.dirname p)); [by apply not_elem_of_nil in Ha|].
      apply elem_of_cons in Ha as [->|Ha]; [done|].
      apply (IH (os_path.dirname p)); [|done].
      unfold listed. by rewrite bool_decide_eq_true_2.
Qed.

(** After [makedirs], every ancestor no regular file is at is a
    directory. *)
Lemma ancestors_made (w : World) (n : nat) (p a : string) :
  well_formed w →
  (∀ b, b ∈ ancestors_upto n p → b ∉ dom (files w)) →
  a ∈ ancestors_upto n p →
  a ∈ (list_to_set (missing w (ancestors_upto n p)).1 : gset string) ∪ dirs w.
Proof.
  intros Hwf. revert p. induction n as [|n IH]; intros p Hfiles Ha;
    cbn [ancestors_upto] in *.
  - by apply not_elem_of_nil in Ha.
  - destruct (is_top (os_path.dirname p)); [by apply not_elem_of_nil in Ha|].
    cbn [missing]. destruct (listed w (os_path.dirname p)) eqn:Hl.
    + apply elem_of_union_r.
      assert (os_path.dirname p ∈ dirs w) as Hd.
      { unfold listed in Hl. apply orb_true_iff in Hl as [Hl|Hl].
        - by apply bool_decide_eq_true in Hl.
        - apply bool_decide_eq_true in Hl.
          by destruct (Hfiles (os_path.dirname p) ltac:(apply list_elem_of_here)). }
      apply elem_of_cons in Ha as [->|Ha]; [done|].
      by apply (ancestors_listed w n (os_path.dirname p)).
    + specialize (IH (os_path.dirname p)).
      destruct (missing w (ancestors_upto n (os_path.dirname p))) as [m e].
      cbn [fst] in *.
      apply elem_of_cons in Ha as [->|Ha]; [set_solver|].
      assert (a ∈ (list_to_set m : gset string) ∪ dirs w) as H; [|set_solver].
      apply IH; [|done]. intros b Hb. by apply Hfiles, list_elem_of_further.
Qed.

(** The icon directory is [icons] in the directory it is joined to. *)
Lemma icon_dir_not_top (script_dir : string) :
  is_top (icon_dir script_dir) = false.
Proof.
  apply bool_decide_eq_false. intros H.
  pose proof (length_dirname (os_path.dirname (icon_dir script_dir))) as _.
  assert (∃ y, icon_dir script_dir = y +:+ ("/" +:+ "icons") ∧ y ≠ "" ∧
               os_path.endswith_sep y = false) as (y & Hy & Hne & Hend).
  { unfold icon_dir, os_path.join. cbn [fold_left].
    destruct (join2_relative script_dir "..") as (x & -> & _); [done|].
    destruct (join2_relative (x +:+ "..") "src-tauri") as (x' & -> & _); [done|].
    exists (x' +:+ "src-tauri"). split; [|split].
    - unfold os_path.join2. cbn [os_path.startswith_sep].
      rewrite bool_decide_eq_false_2 by done.
      rewrite (bool_decide_eq_false_2 (x' +:+ "src-tauri" = ""))
        by by apply app_nonempty.
      by rewrite endswith_sep_app.
    - by apply app_nonempty.
    - by rewrite endswith_sep_app. }
  rewrite Hy in H. unfold os_path.dirname in H.
  rewrite head_app in H by done.
  rewrite rstrip_sep_app, rstrip_sep_id in H by done.
  destruct y as [|c y]; [done|].
  symmetry in H. revert H. by apply app_ne_self.
Qed.

Lemma missing_dir_writable (script_dir : string) (w : World) :
  well_formed w →
  icon_dir script_dir ∉ dirs w →
  (∀ p, p ∈ icon_dir script_dir :: ancestors (icon_dir script_dir) →
     p ∉ dom (files w)) →
  writable script_dir w.
Proof.
  intros Hwf Hd Hf. split; [split|].
  - apply Hf, list_elem_of_here.
  - right. intros p Hp. by apply Hf, list_elem_of_further.
  - intros f Hfn Hp. destruct (filenames_plain f Hfn) as [Hs Hh].
    destruct Hwf as [Hwf _].
    destruct (Hwf (icon_path script_dir f)) as [H|H].
    + unfold listed. by rewrite bool_decide_eq_true_2.
    + rewrite dirname_icon_path, icon_dir_not_top in H by done. discriminate H.
    + by rewrite dirname_icon_path in H.
Qed.

Lemma well_formed_parent_file_world : well_formed parent_file_world.
Proof.
  split.
  - intros p Hp. unfold listed in Hp.
    rewrite orb_true_iff, !bool_decide_eq_true in Hp.
    cbn [parent_file_world dirs files] in *.
    rewrite dom_singleton_L, elem_of_union, !elem_of_singleton in Hp.
    destruct Hp as [[->| ->]| ->].
    + left. vm_compute. reflexivity.
    + right. change (os_path.dirname "scripts/..") with "scripts". set_solver.
    + right. change (os_path.dirname "scripts/../src-tauri") with "scripts/..".
      set_solver.
  - intros p Hp. cbn [parent_file_world dirs files] in *.
    rewrite dom_singleton_L, elem_of_singleton.
    apply elem_of_union in Hp. rewrite !elem_of_singleton in Hp.
    by destruct Hp as [-> | ->].
Qed.

Lemma main_parent_file_world :
  main "scripts" parent_file_world
  = (Raise (NotADirectoryError "scripts/../src-tauri/icons"), parent_file_world).
Proof.
  unfold main, bind.
  replace (makedirs (os_path.join "scripts" [".."; "src-tauri"; "icons"])
             parent_file_world)
    with (@Raise unit (NotADirectoryError "scripts/../src-tauri/icons"),
          parent_file_world); [reflexivity|].
  vm_compute. reflexivity.
Qed.

(** C9, as stated, fails: nothing is at the path of the output directory
    of [scripts], but its parent, [scripts/../src-tauri], is a regular
    file; [os.makedirs] raises [NotADirectoryError] and [main] with it. *)
Lemma missing_directory_not_always_created :
  ¬ (∀ (script_dir : string) (w : World),
       well_formed w → listed w (icon_dir script_dir) = false →
       ∃ w', main script_dir w = (Ok tt, w') ∧ icon_dir script_dir ∈ dirs w').
Proof.
  intros H.
  destruct (H "scripts" parent_file_world well_formed_parent_file_world)
    as (w' & Hrun & _).
  - vm_compute. reflexivity.
  - rewrite main_parent_file_world in Hrun. discriminate Hrun.
Qed.

(** C9, amended.  When nothing is at the path of the output directory
    and no regular file is at an ancestor of it, [main] makes the
    directory, with the ancestors that are missing, and runs through;
    and whenever it runs through, each target path holds the new
    content afterwards, whatever file was there before. *)
Theorem missing_directory_created (script_dir : string) (w : World) :
  (well_formed w →
   listed w (icon_dir script_dir) = false →
   (∀ p, p ∈ ancestors (icon_dir script_dir) → p ∉ dom (files w)) →
   ∃ w', main script_dir w = (Ok tt, w') ∧
     exit_status (fst (main script_dir w)) = 0 ∧
     (∀ p, p ∈ icon_dir script_dir :: ancestors (icon_dir script_dir) →
        p ∈ dirs w') ∧
     ∀ f c, (f, c) ∈ artifacts master →
       files w' !! icon_path script_dir f = Some c) ∧
  (writable script_dir w →
   ∃ w', main script_dir w = (Ok tt, w') ∧
     ∀ f c old, (f, c) ∈ artifacts master →
       files w !! icon_path script_dir f = Some old →
       files w' !! icon_path script_dir f = Some c).
Proof.
  split.
  - intros Hwf Hl Hanc.
    unfold listed in Hl. apply orb_false_iff in Hl as [Hd Hf].
    apply bool_decide_eq_false in Hd, Hf.
    assert (writable script_dir w) as Hw.
    { apply missing_dir_writable; [done..|].
      intros p Hp. apply elem_of_cons in Hp as [->|Hp]; auto. }
    exists (after_main script_dir w). rewrite (main_spec _ _ Hw).
    split; [done|]. split; [done|]. split.
    + intros p Hp. cbn [after_main after_export dirs].
      apply elem_of_cons in Hp as [->|Hp]; [apply makedirs_dir|].
      unfold made. rewrite decide_False by done.
      rewrite list_to_set_cons.
      pose proof (ancestors_made w _ _ p Hwf Hanc Hp) as H.
      unfold ancestors. set_solver.
    + intros f c. apply after_export_lookup.
  - intros Hw. exists (after_main script_dir w).
    split; [by apply main_spec|].
    intros f c old Hfc _. by apply after_export_lookup.
Qed.

Lemma writable_stale_world (script_dir : string) :
  writable script_dir (stale_world script_dir).
Proof.
  split; [split|]; cbn [stale_world dirs files].
  - rewrite dom_singleton_L. apply not_elem_of_singleton.
    intros E. symmetry in E. by apply icon_path_ne_dir in E.
  - left. by apply elem_of_singleton.
  - intros f Hf. apply not_elem_of_singleton, icon_path_ne_dir.
    by apply filenames_plain.
Qed.

Lemma well_formed_empty : well_formed empty_world.
Proof.
  split.
  - intros p Hp. unfold listed in Hp. cbn [empty_world dirs files] in Hp.
    rewrite dom_empty_L in Hp.
    rewrite !bool_decide_eq_false_2 in Hp by apply not_elem_of_empty.
    discriminate Hp.
  - intros p Hp. by apply not_elem_of_empty in Hp.
Qed.

Lemma missing_directory_created_witness :
  (∃ w', main "scripts" empty_world = (Ok tt, w') ∧
     icon_dir "scripts" ∈ dirs w' ∧ "scripts/../src-tauri" ∈ dirs w') ∧
  (∃ w', main "scripts" (stale_world "scripts") = (Ok tt, w') ∧
     files (stale_world "scripts") !! icon_path "scripts" "icon.png"
     = Some (PNGFile (blank 1)) ∧
     files w' !! icon_path "scripts" "icon.png"
     = Some (PNGFile (resize master (512, 512) LANCZOS))).
Proof.
  split.
  - destruct (missing_directory_created "scripts" empty_world) as [H _].
    destruct H as (w' & Hrun & _ & Hdir & _).
    + exact well_formed_empty.
    + vm_compute. reflexivity.
    + intros p _. cbn [empty_world files]. rewrite dom_empty_L.
      apply not_elem_of_empty.
    + exists w'. split; [exact Hrun|]. split.
      * apply Hdir, list_elem_of_here.
      * apply Hdir, list_elem_of_further.
        change (ancestors (icon_dir "scripts"))
          with ["scripts/../src-tauri"; "scripts/.."; "scripts"].
        apply list_elem_of_here.
  - destruct (missing_directory_created "scripts" (stale_world "scripts"))
      as [_ H].
    destruct (H (writable_stale_world "scripts")) as (w' & Hrun & Hf).
    exists w'. split; [exact Hrun|].
    assert (Hold : files (stale_world "scripts") !! icon_path "scripts" "icon.png"
                   = Some (PNGFile (blank 1)))
      by apply lookup_singleton_eq.
    split; [exact Hold|].
    apply (Hf "icon.png" _ _ ltac:(apply list_elem_of_In; cbn [artifacts In]; tauto)
             Hold).
Defined.

(* ===================================================================== *)
(** * Binary64 products of an int and a literal *)
(* ===================================================================== *)

(** ** Binary digits *)

Lemma digits2_pos_bounds (p : positive) :
  2 ^ (Z.pos (digits2_pos p) - 1) <= Z.pos p < 2 ^ Z.pos (digits2_pos p).
Proof.
  induction p as [p IH|p IH|]; cbn [digits2_pos].
  - rewrite Pos2Z.inj_succ.
    replace (Z.succ (Z.pos (digits2_pos p)) - 1) with (Z.succ (Z.pos (digits2_pos p) - 1)) by lia.
    rewrite !Z.pow_succ_r by lia. lia.
  - rewrite Pos2Z.inj_succ.
    replace (Z.succ (Z.pos (digits2_pos p)) - 1) with (Z.succ (Z.pos (digits2_pos p) - 1)) by lia.
    rewrite !Z.pow_succ_r by lia. lia.
  - simpl. lia.
Qed.

Lemma digits2_pos_unique (p : positive) (k : Z) :
  2 ^ (k - 1) <= Z.pos p < 2 ^ k -> Z.pos (digits2_pos p) = k.
Proof.
  intros [Hlo Hhi]. pose proof (digits2_pos_bounds p) as [Dlo Dhi].
  assert (0 < k).
  { destruct (Z.ltb_spec 0 k); [done|]. 
    assert (2 ^ k <= 1); [|lia].
    destruct (Z.eqb_spec k 0) as [->|]; [simpl; lia|].
    rewrite Z.pow_neg_r by lia. lia. }
  set (d := Z.pos (digits2_pos p)) in *.
  assert (d - 1 < k) by (apply (Z.pow_lt_mono_r_iff 2); lia).
  assert (k - 1 < d) by (apply (Z.pow_lt_mono_r_iff 2); lia).
  lia.
Qed.

(** ** Shifting right *)

Lemma shr_1_m (mrs : shr_record) :
  0 <= shr_m mrs -> shr_m (shr_1 mrs) = shr_m mrs / 2.
Proof.
  destruct mrs as [m r s]. cbn [shr_m]. intros Hm.
  destruct m as [|p|p]; [reflexivity| |lia].
  destruct p as [p|p|]; cbn [shr_1 shr_m].
  - rewrite Pos2Z.inj_xI. apply Z.div_unique with 1; lia.
  - rewrite Pos2Z.inj_xO. apply Z.div_unique with 0; lia.
  - reflexivity.
Qed.

Lemma iter_shr_m (k : positive) (mrs : shr_record) :
  0 <= shr_m mrs ->
  shr_m (SpecFloat.iter_pos shr_1 k mrs) = shr_m mrs / 2 ^ Z.pos k.
Proof.
  revert mrs. induction k as [k IH|k IH|]; intros mrs Hm; cbn [SpecFloat.iter_pos].
  - assert (H1 : 0 <= shr_m (shr_1 mrs))
      by (rewrite shr_1_m by done; apply Z.div_pos; lia).
    assert (H2 : 0 <= shr_m (SpecFloat.iter_pos shr_1 k (shr_1 mrs)))
      by (rewrite IH by done; apply Z.div_pos; lia).
    rewrite IH, IH, shr_1_m by done.
    rewrite !Z.div_div by lia. f_equal.
    replace (Z.pos k~1) with (1 + Z.pos k + Z.pos k) by lia.
    rewrite !Z.pow_add_r by lia. lia.
  - assert (H2 : 0 <= shr_m (SpecFloat.iter_pos shr_1 k mrs))
      by (rewrite IH by done; apply Z.div_pos; lia).
    rewrite IH, IH by done. rewrite Z.div_div by lia. f_equal.
    replace (Z.pos k~0) with (Z.pos k + Z.pos k) by lia.
    by rewrite Z.pow_add_r by lia.
  - by rewrite shr_1_m, Z.pow_1_r.
Qed.

Lemma round_nearest_even_bounds (m : Z) (l : location) :
  m <= round_nearest_even m l <= m + 1.
Proof.
  destruct l as [|[]]; cbn [round_nearest_even]; try lia.
  destruct (Z.even m); lia.
Qed.

(** ** Rounding a long mantissa *)

Lemma fexp_normal (x : Z) : -1074 <= x - 53 -> fexp prec emax x = x - 53.
Proof. unfold fexp, emin, prec, emax. lia. Qed.

(** A mantissa of exactly 53 bits is kept as it is. *)
Lemma shr_fexp_53 (m : positive) (e : Z) :
  Z.pos (digits2_pos m) = 53 -> -1074 <= e ->
  shr_fexp prec emax (Z.pos m) e loc_Exact
  = ({| shr_m := Z.pos m; shr_r := false; shr_s := false |}, e).
Proof.
  intros Hd He. unfold shr_fexp. cbn [Zdigits2]. rewrite Hd.
  rewrite fexp_normal by lia.
  replace (53 + e - 53 - e) with 0 by lia. reflexivity.
Qed.

Lemma round_shifted (m : positive) (e : Z) :
  let D := Z.pos (digits2_pos m) in
  53 < D -> -1074 <= D + e - 53 -> D + e - 53 + 1 <= 971 ->
  exists m3 e3 m2,
    binary_round_aux prec emax false (Z.pos m) e loc_Exact
    = S754_finite false m3 e3 /\
    Z.pos m / 2 ^ (D - 53) <= m2 <= Z.pos m / 2 ^ (D - 53) + 1 /\
    ((e3 = e + (D - 53) /\ Z.pos m3 = m2) \/
     (e3 = e + (D - 53) + 1 /\ 2 * Z.pos m3 = m2)).
Proof.
  intros D HD Hlo Hhi.
  pose proof (digits2_pos_bounds m) as [Dlo Dhi]. fold D in Dlo, Dhi.
  unfold binary_round_aux.
  unfold shr_fexp at 1. cbn [Zdigits2]. fold D.
  rewrite fexp_normal by lia.
  replace (D + e - 53 - e) with (D - 53) by lia.
  destruct (D - 53) as [|k|k] eqn:Ek; [lia| |lia].
  cbn [shr shr_record_of_loc].
  set (mrs := SpecFloat.iter_pos shr_1 k _).
  assert (Hm1 : shr_m mrs = Z.pos m / 2 ^ Z.pos k)
    by (unfold mrs; by rewrite iter_shr_m).
  set (m1 := Z.pos m / 2 ^ Z.pos k) in *.
  assert (Hm1_lo : 2 ^ 52 <= m1).
  { unfold m1. apply Z.div_le_lower_bound; [lia|].
    rewrite <- Z.pow_add_r by lia.
    replace (Z.pos k + 52) with (D - 1) by lia. lia. }
  assert (Hm1_hi : m1 < 2 ^ 53).
  { unfold m1. apply Z.div_lt_upper_bound; [lia|].
    rewrite <- Z.pow_add_r by lia.
    replace (Z.pos k + 53) with D by lia. lia. }
  pose proof (round_nearest_even_bounds (shr_m mrs) (loc_of_shr_record mrs)) as Hr.
  set (m2 := round_nearest_even _ _) in *. rewrite Hm1 in Hr.
  destruct m2 as [|p2|p2] eqn:E2; [lia| |lia].
  destruct (Z.eq_dec (Z.pos p2) (2 ^ 53)) as [Htop|Htop].
  - (* the rounding carried into a 54th bit *)
    assert (Hd2 : Z.pos (digits2_pos p2) = 54)
      by (apply digits2_pos_unique; rewrite Htop; simpl; lia).
    unfold shr_fexp. cbn [Zdigits2]. rewrite Hd2.
    rewrite fexp_normal by lia.
    replace (54 + (e + Z.pos k) - 53 - (e + Z.pos k)) with 1 by lia.
    injection Htop as ->. cbn [shr SpecFloat.iter_pos shr_record_of_loc shr_1 shr_m].
    replace (e + Z.pos k + 1 <=? emax - prec) with true
      by (symmetry; apply Z.leb_le; unfold emax, prec; lia).
    eexists _, _, (2 ^ 53). split; [reflexivity|]. split; [lia|].
    right. split; [lia | reflexivity].
  - assert (Hd2 : Z.pos (digits2_pos p2) = 53)
      by (apply digits2_pos_unique; change (53 - 1) with 52; lia).
    rewrite shr_fexp_53 by (done || lia). cbn [shr_m].
    replace (e + Z.pos k <=? emax - prec) with true
      by (symmetry; apply Z.leb_le; unfold emax, prec; lia).
    eexists _, _, (Z.pos p2). split; [reflexivity|]. split; [lia|].
    left. split; [lia | reflexivity].
Qed.

(** ** Converting an int *)

Lemma iter_xO_value (p k : positive) :
  Z.pos (Pos.iter xO p k) = Z.pos p * 2 ^ Z.pos k.
Proof.
  induction k as [|k IH] using Pos.peano_ind.
  - simpl. lia.
  - rewrite Pos.iter_succ, Pos2Z.inj_xO, IH, Pos2Z.inj_succ, Z.pow_succ_r by lia.
    lia.
Qed.

Lemma round_53 (m : positive) (e : Z) :
  Z.pos (digits2_pos m) = 53 -> -1074 <= e <= 971 ->
  binary_round_aux prec emax false (Z.pos m) e loc_Exact = S754_finite false m e.
Proof.
  intros Hd He. unfold binary_round_aux.
  rewrite shr_fexp_53 by (done || lia).
  cbn [shr_m loc_of_shr_record round_nearest_even].
  rewrite shr_fexp_53 by (done || lia). cbn [shr_m].
  replace (e <=? emax - prec) with true
    by (symmetry; apply Z.leb_le; unfold emax, prec; lia).
  reflexivity.
Qed.

(** An int of at most 53 bits converts exactly: its bits are moved to the
    top of the mantissa. *)
Lemma of_int_exact (n : positive) :
  let d := Z.pos (digits2_pos n) in
  d <= 53 ->
  exists mz, of_int (Z.pos n) = S754_finite false mz (d - 53) /\
    Z.pos mz = Z.pos n * 2 ^ (53 - d) /\ Z.pos (digits2_pos mz) = 53.
Proof.
  intros d Hd. pose proof (digits2_pos_bounds n) as [Dlo Dhi]. fold d in Dlo, Dhi.
  assert (0 < d) by (unfold d; lia).
  unfold of_int, binary_normalize, binary_round.
  replace (Z.pos (digits2_pos n) + 0) with d by (unfold d; lia).
  rewrite fexp_normal by lia. unfold shl_align.
  replace (d - 53 - 0) with (d - 53) by lia.
  destruct (d - 53) as [|k|k] eqn:Ek; [|lia|].
  - assert (d = 53) by lia. exists n. rewrite round_53 by (unfold d in *; lia).
    split; [reflexivity|]. split; [|unfold d in *; lia].
    replace (53 - d) with 0 by lia. lia.
  - assert (Hk : Z.pos k = 53 - d) by lia.
    assert (Hv := iter_xO_value n k).
    assert (Hdig : Z.pos (digits2_pos (Pos.iter xO n k)) = 53).
    { apply digits2_pos_unique. rewrite Hv, Hk. split.
      - replace (53 - 1) with ((d - 1) + (53 - d)) by lia.
        rewrite Z.pow_add_r by lia. nia.
      - replace 53 with (d + (53 - d)) at 2 by lia.
        rewrite Z.pow_add_r by lia. nia. }
    exists (Pos.iter xO n k). rewrite round_53 by (done || lia).
    split; [reflexivity|]. split; [by rewrite Hv, Hk | done].
Qed.

(** ** The product of an int and a literal, truncated *)

(** [int(n * c)] for an int [n] of at most 31 bits and a literal
    [c = mc * 2 ^ ec] between 2 ^ -8 and 1: the truncation of a number
    that differs from the exact product by at most [2 * n] units of
    [2 ^ ec]. *)
Lemma int_mul_spec (n : Z) (mc : positive) (ec : Z) :
  0 <= n < 2 ^ 31 -> 2 ^ 52 <= Z.pos mc < 2 ^ 53 -> -60 <= ec <= -53 ->
  exists v, int (int_mul n (S754_finite false mc ec)) = v / 2 ^ (- ec) /\
    n * Z.pos mc - 2 * n <= v <= n * Z.pos mc + 2 * n.
Proof.
  intros Hn Hmc Hec. destruct n as [|n|n]; [| |lia].
  { exists 0. split; [reflexivity | lia]. }
  set (d := Z.pos (digits2_pos n)).
  pose proof (digits2_pos_bounds n) as [Dlo Dhi]. fold d in Dlo, Dhi.
  assert (Hd : 0 < d <= 31).
  { split; [unfold d; lia|].
    assert (d - 1 < 31); [|lia]. apply (Z.pow_lt_mono_r_iff 2); lia. }
  destruct (of_int_exact n ltac:(fold d; lia)) as (mz & Hof & Hmz & Hdz).
  fold d in Hof, Hmz.
  unfold int_mul, mul. rewrite Hof. cbn [SFmul xorb].
  set (M := (mz * mc)%positive).
  set (D := Z.pos (digits2_pos M)).
  pose proof (digits2_pos_bounds M) as [Mlo Mhi]. fold D in Mlo, Mhi.
  pose proof (digits2_pos_bounds mz) as [Zlo Zhi]. rewrite Hdz in Zlo, Zhi.
  change (53 - 1) with 52 in Zlo.
  assert (HM : Z.pos M = Z.pos mz * Z.pos mc) by (unfold M; lia).
  assert (HMlo : 2 ^ 104 <= Z.pos M) by (rewrite HM; change (2 ^ 104) with (2 ^ 52 * 2 ^ 52); nia).
  assert (HMhi : Z.pos M < 2 ^ 106) by (rewrite HM; change (2 ^ 106) with (2 ^ 53 * 2 ^ 53); nia).
  assert (HD : 105 <= D <= 106).
  { split.
    - assert (104 < D); [|lia]. apply (Z.pow_lt_mono_r_iff 2); lia.
    - assert (D - 1 < 106); [|lia]. apply (Z.pow_lt_mono_r_iff 2); lia. }
  destruct (round_shifted M (d - 53 + ec)) as (m3 & e3 & m2 & Hr & Hm2 & He3);
    fold D; try lia.
  fold D in Hm2, He3. rewrite Hr. clear Hr.
  set (j := D + d - 106).
  assert (Hj : 0 <= j) by (unfold j; lia).
  set (J := 2 ^ j). set (P := 2 ^ (53 - d)).
  assert (HJ : 0 < J) by (unfold J; lia).
  assert (HP : 0 < P) by (unfold P; lia).
  assert (Hshift : 2 ^ (D - 53) = J * P).
  { unfold J, P. rewrite <- Z.pow_add_r by lia. f_equal. unfold j. lia. }
  assert (Hm1 : Z.pos M / 2 ^ (D - 53) = (Z.pos n * Z.pos mc) / J).
  { rewrite Hshift, HM, Hmz. fold P.
    replace (Z.pos n * P * Z.pos mc) with (Z.pos n * Z.pos mc * P) by lia.
    apply Z.div_mul_cancel_r; lia. }
  rewrite Hm1 in Hm2.
  pose proof (Z.mul_div_le (Z.pos n * Z.pos mc) J HJ) as Hq1.
  pose proof (Z.mul_succ_div_gt (Z.pos n * Z.pos mc) J HJ) as Hq2.
  assert (HJn : J <= 2 * Z.pos n).
  { destruct (Z.eq_dec j 0) as [Hj0|Hj0]; [unfold J; rewrite Hj0; simpl; lia|].
    assert (2 ^ (j - 1) < Z.pos n); [|unfold J; replace j with (Z.succ (j - 1)) by lia;
                                       rewrite Z.pow_succ_r by lia; lia].
    assert (E1 : 2 ^ (D - 1) = 2 ^ (j - 1) * 2 ^ 53 * P).
    { unfold P. rewrite <- !Z.pow_add_r by lia. f_equal. unfold j. lia. }
    rewrite E1, HM, Hmz in Mlo. fold P in Mlo.
    set (A := 2 ^ (j - 1)) in *.
    assert (0 < A) by (unfold A; apply Z.pow_pos_nonneg; lia).
    destruct (Z.lt_ge_cases A (Z.pos n)) as [Hlt|Hge]; [exact Hlt|exfalso].
    assert (Z.pos n * P * Z.pos mc <= A * P * Z.pos mc).
    { apply Z.mul_le_mono_nonneg_r; [lia|].
      apply Z.mul_le_mono_nonneg_r; lia. }
    assert (A * P * Z.pos mc < A * P * 2 ^ 53).
    { apply Z.mul_lt_mono_pos_l; [apply Z.mul_pos_pos; lia | lia]. }
    lia. }
  set (e' := d - 53 + ec + (D - 53)) in *.
  assert (He' : - e' = - ec - j) by (unfold e', j; lia).
  assert (HK : 2 ^ (- ec) = 2 ^ (- e') * J).
  { unfold J. rewrite <- Z.pow_add_r by lia. f_equal. lia. }
  exists (m2 * J). split.
  2: { set (q := Z.pos n * Z.pos mc / J) in *.
       assert (q * J <= m2 * J) by (apply Z.mul_le_mono_nonneg_r; lia).
       assert (m2 * J <= (q + 1) * J) by (apply Z.mul_le_mono_nonneg_r; lia).
       lia. }
  rewrite HK. rewrite Z.div_mul_cancel_r by lia.
  unfold int. destruct He3 as [[-> <-]|[-> H2]].
  - replace (0 <=? e') with false by (symmetry; apply Z.leb_gt; lia).
    reflexivity.
  - replace (0 <=? e' + 1) with false by (symmetry; apply Z.leb_gt; lia).
    rewrite <- H2.
    replace (- e') with (Z.succ (- (e' + 1))) by lia.
    rewrite Z.pow_succ_r by lia.
    rewrite Z.div_mul_cancel_l by lia. reflexivity.
Qed.

(** [int(n * c)] against the fraction [p / q] the literal [c] stands for:
    when [c] is within one unit of [2 ^ ec / q] of [p / q], the result is
    the whole part of [n * p / q], or one less. *)
Lemma int_mul_truncation (n : Z) (mc : positive) (ec p q : Z) :
  0 <= n < 2 ^ 31 -> 2 ^ 52 <= Z.pos mc < 2 ^ 53 -> -60 <= ec <= -53 ->
  0 < q <= 1000 -> 0 <= p ->
  - q <= q * Z.pos mc - p * 2 ^ (- ec) <= q ->
  0 <= int (n *! S754_finite false mc ec) /\
  truncation_of (int (n *! S754_finite false mc ec)) p q n.
Proof.
  intros Hn Hmc Hec Hq Hp Hlit.
  destruct (int_mul_spec n mc ec Hn Hmc Hec) as (v & -> & Hv).
  set (K := 2 ^ (- ec)) in *.
  assert (HK : 2 ^ 53 <= K) by (unfold K; apply Z.pow_le_mono_r; lia).
  assert (HK0 : 0 < K) by lia.
  set (t := v / K).
  pose proof (Z.mul_div_le v K HK0) as H1. fold t in H1.
  pose proof (Z.mul_succ_div_gt v K HK0) as H2. fold t in H2.
  set (a := q * Z.pos mc - p * K) in *.
  assert (Hv0 : 0 <= v).
  { assert (n * 2 <= n * Z.pos mc) by (apply Z.mul_le_mono_nonneg_l; lia). lia. }
  assert (Ht0 : 0 <= t) by (apply Z.div_pos; lia).
  assert (Hnq : n * q <= 2 ^ 31 * 1000).
  { transitivity (2 ^ 31 * q).
    - apply Z.mul_le_mono_nonneg_r; lia.
    - apply Z.mul_le_mono_nonneg_l; lia. }
  assert (Hna1 : n * a <= n * q) by (apply Z.mul_le_mono_nonneg_l; lia).
  assert (Hna2 : n * (- q) <= n * a) by (apply Z.mul_le_mono_nonneg_l; lia).
  assert (Hqv1 : q * (K * t) <= q * v) by (apply Z.mul_le_mono_nonneg_l; lia).
  assert (Hqv2 : q * v < q * (K * Z.succ t)) by (apply Z.mul_lt_mono_pos_l; lia).
  assert (Hqv3 : q * (n * Z.pos mc - 2 * n) <= q * v)
    by (apply Z.mul_le_mono_nonneg_l; lia).
  assert (Hqv4 : q * v <= q * (n * Z.pos mc + 2 * n))
    by (apply Z.mul_le_mono_nonneg_l; lia).
  assert (Hmc' : n * (q * Z.pos mc) = n * (p * K) + n * a) by (unfold a; lia).
  split; [exact Ht0|]. unfold truncation_of. split.
  - destruct (Z.le_gt_cases (q * t) (p * n)) as [Hle|Hgt]; [exact Hle|exfalso].
    assert (K * (p * n + 1) <= K * (q * t))
      by (apply Z.mul_le_mono_nonneg_l; lia).
    lia.
  - destruct (Z.le_gt_cases (p * n) (q * (t + 1))) as [Hle|Hgt]; [exact Hle|exfalso].
    assert (K * (q * (t + 1) + 1) <= K * (p * n))
      by (apply Z.mul_le_mono_nonneg_l; lia).
    lia.
Qed.

Ltac literal_fraction :=
  apply int_mul_truncation;
  [ lia
  | split; [apply Z.leb_le | apply Z.ltb_lt]; reflexivity
  | lia | lia | lia
  | split; apply Z.leb_le; reflexivity ].

Lemma geometry_all_sizes (size : Z) :
  0 <= size < 2 ^ 31 -> geometry_fractions size /\ geometry_nonneg size.
Proof.
  intros Hs.
  assert (H06 : 0 <= Geom.pad size /\ truncation_of (Geom.pad size) 6 100 size)
    by literal_fraction.
  assert (H22 : 0 <= Geom.radius size /\ truncation_of (Geom.radius size) 22 100 size)
    by literal_fraction.
  assert (H42 : 0 <= Geom.diamond_cx size /\ truncation_of (Geom.diamond_cx size) 42 100 size)
    by literal_fraction.
  assert (H44 : 0 <= Geom.diamond_cy size /\ truncation_of (Geom.diamond_cy size) 44 100 size)
    by literal_fraction.
  assert (H52 : 0 <= Geom.lens_cx size /\ truncation_of (Geom.lens_cx size) 52 100 size)
    by literal_fraction.
  assert (H20 : 0 <= Geom.lens_r size /\ truncation_of (Geom.lens_r size) 20 100 size)
    by literal_fraction.
  assert (H78 : 0 <= Geom.handle_end_x size /\ truncation_of (Geom.handle_end_x size) 78 100 size)
    by literal_fraction.
  assert (H012 : 0 <= int (size *! lit_0_012) /\ truncation_of (int (size *! lit_0_012)) 12 1000 size)
    by literal_fraction.
  assert (H04 : 0 <= int (size *! lit_0_04) /\ truncation_of (int (size *! lit_0_04)) 4 100 size)
    by literal_fraction.
  assert (H018 : 0 <= int (size *! lit_0_018) /\ truncation_of (int (size *! lit_0_018)) 18 1000 size)
    by literal_fraction.
  assert (H055 : 0 <= int (size *! lit_0_055) /\ truncation_of (int (size *! lit_0_055)) 55 1000 size)
    by literal_fraction.
  change (Geom.radius size) with (Geom.diamond_r size) in H22.
  change (Geom.diamond_cx size) with (Geom.lens_cy size) in H42.
  change (Geom.handle_end_x size) with (Geom.handle_end_y size) in H78.
  unfold truncation_of in H06, H22, H42, H44, H52, H20, H78, H012, H04, H018, H055.
  assert (Hin : 0 <= Geom.inner_r size /\
                truncation_of (Geom.inner_r size) 6 10 (Geom.diamond_r size))
    by (unfold Geom.inner_r; literal_fraction).
  assert (Hsh : 0 <= Geom.shine_r size /\
                truncation_of (Geom.shine_r size) 65 100 (Geom.lens_r size))
    by (unfold Geom.shine_r; literal_fraction).
  assert (Hst : 0 <= int (Geom.lens_r size *! lit_0_7) /\
                truncation_of (int (Geom.lens_r size *! lit_0_7)) 7 10 (Geom.lens_r size))
    by literal_fraction.
  assert (Hhw : 0 <= Geom.handle_w size < 2 ^ 31)
    by (unfold Geom.handle_w; lia).
  assert (Hcap : 0 <= Geom.cap_r size /\
                 truncation_of (Geom.cap_r size) 6 10 (Geom.handle_w size))
    by (unfold Geom.cap_r; literal_fraction).
  unfold geometry_fractions, geometry_nonneg, floored_fraction.
  change (Geom.radius size) with (Geom.diamond_r size).
  change (Geom.diamond_cx size) with (Geom.lens_cy size).
  change (Geom.handle_end_x size) with (Geom.handle_end_y size).
  unfold Geom.handle_start_x, Geom.handle_start_y.
  unfold truncation_of in *.
  repeat split; try lia;
    try (eexists; split; [|reflexivity]; lia).
Qed.

(** Far out the binary64 product drifts from the fraction: at size
    [2 ^ 60] the padding is two pixels below 6% of the size. *)
Lemma pad_drifts_far_out :
  Geom.pad (2 ^ 60) = 69175290276410816 ∧
  ¬ truncation_of (Geom.pad (2 ^ 60)) 6 100 (2 ^ 60).
Proof.
  assert (Geom.pad (2 ^ 60) = 69175290276410816) as H
    by (vm_compute; reflexivity).
  split; [exact H|]. rewrite H. unfold truncation_of. lia.
Qed.

(** C3, amended.  For every positive size a canvas can have - the sides
    of a Pillow image are C ints, below [2 ^ 31] - each offset and radius
    of [draw_icon] is the truncation of a constant fraction of the size -
    or, for the inner diamond, the shine, the start of the handle and its
    cap, of a radius or width computed before - and each stroke width is
    the larger of its pixel floor and such a truncation. *)
Theorem geometry_truncated_fractions (size : Z) :
  0 < size < 2 ^ 31 →
  truncation_of (Geom.pad size) 6 100 size ∧
  truncation_of (Geom.radius size) 22 100 size ∧
  truncation_of (Geom.diamond_cx size) 42 100 size ∧
  truncation_of (Geom.diamond_cy size) 44 100 size ∧
  truncation_of (Geom.diamond_r size) 22 100 size ∧
  truncation_of (Geom.inner_r size) 6 10 (Geom.diamond_r size) ∧
  truncation_of (Geom.lens_cx size) 52 100 size ∧
  truncation_of (Geom.lens_cy size) 42 100 size ∧
  truncation_of (Geom.lens_r size) 20 100 size ∧
  truncation_of (Geom.shine_r size) 65 100 (Geom.lens_r size) ∧
  truncation_of (Geom.handle_start_x size - Geom.lens_cx size) 7 10
    (Geom.lens_r size) ∧
  truncation_of (Geom.handle_start_y size - Geom.lens_cy size) 7 10
    (Geom.lens_r size) ∧
  truncation_of (Geom.handle_end_x size) 78 100 size ∧
  truncation_of (Geom.handle_end_y size) 78 100 size ∧
  truncation_of (Geom.cap_r size) 6 10 (Geom.handle_w size) ∧
  floored_fraction (Geom.line_w size) 2 12 1000 size ∧
  floored_fraction (Geom.lens_outline_w size) 4 4 100 size ∧
  floored_fraction (Geom.shine_w size) 2 18 1000 size ∧
  floored_fraction (Geom.handle_w size) 6 55 1000 size.
Proof.
  intros Hs. exact (proj1 (geometry_all_sizes size ltac:(lia))).
Qed.

(** At size 1500 the shine stroke is 26 pixels although 0.018 * 1500 is
    27: the float product is just below 27. *)
Lemma geometry_truncated_fractions_witness :
  Geom.shine_w 1500 = 26 ∧
  floored_fraction (Geom.shine_w 1500) 2 18 1000 1500 ∧
  truncation_of (Geom.pad 2147483647) 6 100 2147483647.
Proof.
  split; [vm_compute; reflexivity|]. split.
  - apply (geometry_truncated_fractions 1500). lia.
  - apply (geometry_truncated_fractions 2147483647). lia.
Defined.

(* ===================================================================== *)
(** * Runs of [draw_icon] at every size *)
(* ===================================================================== *)

Lemma check_box_ordered (x0 y0 x1 y1 : Z) :
  x0 <= x1 -> y0 <= y1 -> check_box (x0, y0, x1, y1) = None.
Proof.
  intros Hx Hy. unfold check_box.
  destruct (Z.ltb_spec x1 x0); [lia|]. destruct (Z.ltb_spec y1 y0); [lia|].
  reflexivity.
Qed.

(** When every checked box is in order the run goes through. *)
Lemma draw_icon_paints (size : Z) :
  Forall (fun b => check_box b = None) (checked_boxes size) ->
  draw_icon size = Painted (fold_left Image_draw (plan size) (blank size)).
Proof.
  unfold checked_boxes, draw_icon, plan, diamond_part, lens_part, chords,
    Geom.offsets, chord, background_op, lens_outline_op, lens_fill_op, shine_op,
    handle_op, cap_op, diamond_pts, blank, draw.rounded_rectangle, draw.polygon,
    draw.line, draw.ellipse, draw.arc, paint_checked.
  unfold Geom.handle_start_x, Geom.handle_start_y, Geom.cap_r, Geom.shine_r,
    Geom.inner_r.
  unfold Geom.pad, Geom.radius, Geom.diamond_cx, Geom.diamond_cy,
    Geom.line_w, Geom.lens_cx, Geom.lens_cy, Geom.lens_outline_w,
    Geom.shine_w, Geom.handle_end_x, Geom.handle_end_y, Geom.handle_w,
    Geom.lens_r, Geom.diamond_r.
  cbv zeta.
  repeat match goal with
  | |- context [int ?x] => generalize (int x); intro
  end.
  intros H.
  repeat match goal with
  | H : Forall _ (_ :: _) |- _ =>
      apply Forall_cons_1 in H; let E := fresh "E" in destruct H as [E H]
  end.
  cbn [and_then for_each flat_map app].
  rewrite E. cbn [and_then].
  repeat match goal with
  | |- context [0 <? ?b] =>
      destruct (0 <? b) eqn:?; cbn [and_then canvas app for_each]
  end;
  rewrite E0; cbn [and_then]; rewrite E1; cbn [and_then];
  rewrite E2; cbn [and_then]; rewrite E3; cbn [and_then]; reflexivity.
Qed.

Lemma checked_boxes_ordered (size : Z) :
  25 <= size < 2 ^ 31 ->
  Forall (fun b => check_box b = None) (checked_boxes size).
Proof.
  intros Hs.
  destruct (geometry_all_sizes size ltac:(lia)) as [Hf Hn].
  unfold geometry_fractions, geometry_nonneg, floored_fraction, truncation_of in *.
  destruct Hf as (Hpad & _ & _ & _ & _ & _ & _ & _ & Hlr & _ & _ & _ & _ & _ & _
                  & _ & (t & Ht & Hw) & _).
  destruct Hn as (? & ? & ? & ? & ? & ? & ? & ? & ? & ? & ? & ? & ? & ? & ?).
  unfold checked_boxes.
  repeat (constructor; [apply check_box_ordered; lia|]). constructor.
Qed.

(** Line 13 on a machine: the canvas is handed out or it is not. *)
Lemma draw_icon_call_granted (A : Allocator) (size : Z) :
  0 <= size < 2 ^ 31 -> grants A (4 * size * size) = true ->
  draw_icon_call A size = Ok (draw_icon size).
Proof.
  intros Hs Hg. unfold draw_icon_call, new_image. cbn [pixel_bytes].
  destruct (Z.ltb_spec size 0); [lia|]. cbn [orb].
  destruct (Z.leb_spec (2 ^ 31) size); [lia|]. cbn [orb].
  by rewrite Hg.
Qed.

Lemma draw_icon_call_refused (A : Allocator) (size : Z) :
  0 <= size < 2 ^ 31 -> grants A (4 * size * size) = false ->
  draw_icon_call A size = Raise MemoryError.
Proof.
  intros Hs Hg. unfold draw_icon_call, new_image. cbn [pixel_bytes].
  destruct (Z.ltb_spec size 0); [lia|]. cbn [orb].
  destruct (Z.leb_spec (2 ^ 31) size); [lia|]. cbn [orb].
  by rewrite Hg.
Qed.

Lemma draw_icon_paints_from_20 (size : Z) :
  20 <= size < 2 ^ 31 ->
  exists img, draw_icon size = Painted img /\
    im_size img = (size, size) /\ im_mode img = ModeRGBA /\
    im_ops img = plan size.
Proof.
  intros Hs.
  assert (H : exists img, draw_icon size = Painted img).
  { destruct (Z.lt_ge_cases size 25) as [Hsmall|Hbig].
    - destruct (draw_icon_returns_from_20 size ltac:(lia)) as (img & H & _).
      by exists img.
    - eexists. apply draw_icon_paints, checked_boxes_ordered. lia. }
  destruct H as [img H]. exists img. split; [exact H|].
  destruct (draw_icon_returned_image size img H) as [H1 H2].
  split; [exact H1|]. split; [exact H2|]. by apply draw_icon_complete.
Qed.

(** X1.  The call [draw_icon(size)] for a size from 20 up to (but
    excluding) 2^31: when the allocator hands out the canvas, of four
    bytes a pixel, the call returns an RGBA image of [size] x [size]
    pixels on which the calls of [plan] have been painted, in that
    order; when it does not, line 13 raises [MemoryError] and nothing is
    painted. *)
Theorem draw_icon_returns_from_size_20 (A : Allocator) (size : Z) :
  20 <= size < 2 ^ 31 ->
  (grants A (4 * size * size) = true ->
   exists img, draw_icon_call A size = Ok (Painted img) /\
     im_size img = (size, size) /\ im_mode img = ModeRGBA /\
     im_ops img = plan size) /\
  (grants A (4 * size * size) = false ->
   draw_icon_call A size = Raise MemoryError).
Proof.
  intros Hs. split; intros Hg.
  - rewrite draw_icon_call_granted by (done || lia).
    destruct (draw_icon_paints_from_20 size Hs) as (img & -> & H).
    by exists img.
  - apply draw_icon_call_refused; [lia | done].
Qed.

Lemma draw_icon_returns_from_size_20_witness :
  (exists img, draw_icon_call four_gib 1024 = Ok (Painted img) /\
     im_size img = (1024, 1024)) /\
  draw_icon_call four_gib 1000000 = Raise MemoryError.
Proof.
  split.
  - destruct (draw_icon_returns_from_size_20 four_gib 1024 ltac:(lia))
      as [H _].
    destruct (H ltac:(reflexivity)) as (img & Hrun & Hsz & _).
    exists img. split; [exact Hrun | exact Hsz].
  - destruct (draw_icon_returns_from_size_20 four_gib 1000000 ltac:(lia))
      as [_ H].
    apply H. reflexivity.
Defined.

Lemma draw_icon_outcome (size : Z) : draw_icon size = outcome size.
Proof.
  unfold outcome, painted, checked_boxes, draw_icon, plan, diamond_part,
    lens_part, chords, Geom.offsets, chord, background_op, lens_outline_op,
    lens_fill_op, shine_op, handle_op, cap_op, diamond_pts, blank,
    draw.rounded_rectangle, draw.polygon, draw.line, draw.ellipse, draw.arc,
    paint_checked.
  unfold Geom.handle_start_x, Geom.handle_start_y, Geom.cap_r, Geom.shine_r,
    Geom.inner_r.
  unfold Geom.pad, Geom.radius, Geom.diamond_cx, Geom.diamond_cy,
    Geom.line_w, Geom.lens_cx, Geom.lens_cy, Geom.lens_outline_w,
    Geom.shine_w, Geom.handle_end_x, Geom.handle_end_y, Geom.handle_w,
    Geom.lens_r, Geom.diamond_r.
  cbv zeta.
  repeat match goal with
  | |- context [int ?x] => generalize (int x); intro
  end.
  cbn [and_then for_each flat_map app].
  destruct (check_box _) eqn:Hbg; cbn [and_then]; [reflexivity|].
  repeat match goal with
  | |- context [0 <? ?b] =>
      destruct (0 <? b) eqn:?; cbn [and_then canvas app for_each]
  end;
  repeat match goal with
  | |- context [check_box ?b] =>
      destruct (check_box b); cbn [and_then]; [reflexivity|]
  end;
  reflexivity.
Qed.

Lemma check_box_reversed (x0 y0 x1 y1 : Z) :
  x1 < x0 ->
  check_box (x0, y0, x1, y1)
  = Some (ValueError "x1 must be greater than or equal to x0").
Proof. intros H. unfold check_box. by destruct (Z.ltb_spec x1 x0); [|lia]. Qed.

Lemma im_ops_painted (size : Z) (ops : list DrawOp) :
  im_ops (painted size ops) = ops.
Proof. unfold painted. by rewrite im_ops_fold. Qed.

(** X2.  For every size from 1 to 19 [draw_icon] raises [ValueError]:
    the lens radius is below the 4 pixel floor of the outline width, the
    box of the glass fill is inside out, and the run stops there, after
    the background, the diamond with its chords and the lens outline. *)
Theorem draw_icon_raises_below_size_20 (size : Z) :
  1 <= size <= 19 ->
  Geom.lens_r size < Geom.lens_outline_w size /\
  draw_icon size
  = Stopped (ValueError "x1 must be greater than or equal to x0")
      (painted size (diamond_part size ++ [lens_outline_op size])).
Proof.
  intros Hs.
  destruct (geometry_all_sizes size ltac:(lia)) as [Hf Hn].
  unfold geometry_fractions, geometry_nonneg, floored_fraction, truncation_of in *.
  destruct Hf as (Hpad & _ & _ & _ & _ & _ & _ & _ & Hlr & _ & _ & _ & _ & _ & _
                  & _ & (t & Ht & Hw) & _).
  destruct Hn as (? & ? & ? & ? & ? & ? & ? & ? & ? & ? & ? & ? & ? & ? & ?).
  split; [lia|].
  rewrite draw_icon_outcome. unfold outcome, checked_boxes.
  rewrite check_box_ordered by lia. rewrite check_box_ordered by lia.
  rewrite check_box_reversed by lia. reflexivity.
Qed.

Lemma draw_icon_raises_below_size_20_witness :
  Geom.lens_r 19 < Geom.lens_outline_w 19 /\
  exists img, draw_icon 19
              = Stopped (ValueError "x1 must be greater than or equal to x0") img.
Proof.
  destruct (draw_icon_raises_below_size_20 19 ltac:(lia)) as [H1 H2].
  split; [exact H1|]. eexists. exact H2.
Defined.

(** The background call is accepted at every size below 2^31: the
    padding is at most 6% of the size. *)
Lemma diamond_part_painted (size : Z) :
  0 <= size < 2 ^ 31 ->
  exists rest todo,
    im_ops (canvas (draw_icon size)) = diamond_part size ++ rest /\
    lens_part size = rest ++ todo.
Proof.
  intros Hs.
  destruct (geometry_all_sizes size ltac:(lia)) as [Hf Hn].
  unfold geometry_fractions, geometry_nonneg, truncation_of in *.
  destruct Hf as (Hpad & _). destruct Hn as (Hpad0 & _).
  rewrite draw_icon_outcome. unfold outcome, checked_boxes.
  rewrite check_box_ordered by lia.
  repeat match goal with
  | |- context [check_box ?b] => destruct (check_box b)
  end; cbn [canvas]; rewrite im_ops_painted; unfold plan, lens_part.
  - exists [], [lens_outline_op size; lens_fill_op size; shine_op size;
               handle_op size; cap_op size]. by rewrite app_nil_r.
  - by exists [lens_outline_op size],
             [lens_fill_op size; shine_op size; handle_op size; cap_op size].
  - by exists [lens_outline_op size; lens_fill_op size],
             [shine_op size; handle_op size; cap_op size].
  - by exists [lens_outline_op size; lens_fill_op size; shine_op size;
               handle_op size], [cap_op size].
  - exists [lens_outline_op size; lens_fill_op size; shine_op size;
            handle_op size; cap_op size], []. by rewrite app_nil_r.
Qed.

(** X3.  At every size from 1 up to 2^31 for which the allocator hands
    out the canvas, whether or not the run later stops at the lens, the
    background, the diamond, its highlight and the chords are on the
    canvas, and the chords are those of the specification for the three
    offsets of the script. *)
Theorem diamond_painted_at_every_size (A : Allocator) (size : Z) :
  0 < size < 2 ^ 31 -> grants A (4 * size * size) = true ->
  exists run, draw_icon_call A size = Ok run /\
    (exists rest, im_ops (canvas run) = diamond_part size ++ rest) /\
    filter (fun op => is_chord op = true) (im_ops (canvas run))
    = omap (spec_chord (Geom.diamond_cx size) (Geom.diamond_cy size)
              (Geom.diamond_r size) (Geom.line_w size))
        (Geom.offsets size).
Proof.
  intros Hs Hg. exists (draw_icon size).
  split; [apply draw_icon_call_granted; [lia | done]|].
  destruct (diamond_part_painted size ltac:(lia)) as (rest & todo & Hops & Hl).
  split; [by exists rest|].
  rewrite Hops, filter_app, filter_chords_diamond, (filter_chords_lens _ _ _ Hl).
  rewrite app_nil_r. apply chords_spec.
Qed.

Lemma diamond_painted_at_every_size_witness :
  exists run, draw_icon_call four_gib 7 = Ok run /\
    filter (fun op => is_chord op = true) (im_ops (canvas run))
    = omap (spec_chord (Geom.diamond_cx 7) (Geom.diamond_cy 7)
              (Geom.diamond_r 7) (Geom.line_w 7)) (Geom.offsets 7).
Proof.
  destruct (diamond_painted_at_every_size four_gib 7 ltac:(lia)
              ltac:(reflexivity)) as (run & Hrun & _ & Hchords).
  exists run. split; [exact Hrun | exact Hchords].
Defined.

(** X4.  The offset of the upper chord is the floor of [-r / 3]: its
    magnitude is that of the lower offset [r // 3] or one pixel more, and
    the two are equal exactly when 3 divides the diamond radius. *)
Theorem chord_offsets_off_by_one (size : Z) :
  exists up down,
    Geom.offsets size = [up; 0; down] /\
    down = Geom.diamond_r size / 3 /\
    - down - 1 <= up <= - down /\
    (up = - down <-> Geom.diamond_r size mod 3 = 0).
Proof.
  unfold Geom.offsets. generalize (Geom.diamond_r size). intros r.
  exists ((- r) / 3), (r / 3). split; [reflexivity|]. split; [reflexivity|].
  pose proof (Z.div_mod r 3 ltac:(lia)) as H1.
  pose proof (Z.mod_pos_bound r 3 ltac:(lia)) as H2.
  pose proof (Z.div_mod (- r) 3 ltac:(lia)) as H3.
  pose proof (Z.mod_pos_bound (- r) 3 ltac:(lia)) as H4.
  lia.
Qed.

(** The number of chords for a diamond of radius [r]: none for [r <= 0],
    two for [r = 1] (the upper offset has half width 0), three above. *)
Lemma chords_length (size : Z) :
  List.length (chords size)
  = if Geom.diamond_r size <=? 0 then 0%nat
    else if Geom.diamond_r size =? 1 then 2%nat else 3%nat.
Proof.
  unfold chords, chord, Geom.offsets. generalize (Geom.diamond_r size). intros r.
  cbn [flat_map].
  pose proof (Z.div_mod r 3 ltac:(lia)) as H1.
  pose proof (Z.mod_pos_bound r 3 ltac:(lia)) as H2.
  pose proof (Z.div_mod (- r) 3 ltac:(lia)) as H3.
  pose proof (Z.mod_pos_bound (- r) 3 ltac:(lia)) as H4.
  destruct (Z.leb_spec r 0); [|destruct (Z.eqb_spec r 1)];
    repeat match goal with
    | |- context [0 <? ?b] => destruct (Z.ltb_spec 0 b)
    end; try reflexivity; lia.
Qed.

(** X5.  How many chords are painted when the allocator hands out the
    canvas: none up to size 4 (the diamond has radius 0), two from size 5
    to 9 (radius 1), and all three from size 10 on. *)
Theorem chords_painted_by_size (A : Allocator) (size : Z) :
  0 < size < 2 ^ 31 -> grants A (4 * size * size) = true ->
  exists run, draw_icon_call A size = Ok run /\
    List.length (filter (fun op => is_chord op = true) (im_ops (canvas run)))
    = if size <? 5 then 0%nat else if size <? 10 then 2%nat else 3%nat.
Proof.
  intros Hs Hg. exists (draw_icon size).
  split; [apply draw_icon_call_granted; [lia | done]|].
  destruct (diamond_part_painted size ltac:(lia)) as (rest & todo & Hops & Hl).
  rewrite Hops, filter_app, filter_chords_diamond, (filter_chords_lens _ _ _ Hl).
  rewrite app_nil_r, chords_length.
  destruct (geometry_all_sizes size ltac:(lia)) as [Hf Hn].
  unfold geometry_fractions, geometry_nonneg, truncation_of in *.
  destruct Hf as (_ & _ & _ & _ & Hr & _).
  destruct Hn as (_ & _ & _ & _ & Hr0 & _).
  destruct (Z.ltb_spec size 5); [|destruct (Z.ltb_spec size 10)];
    destruct (Z.leb_spec (Geom.diamond_r size) 0); try lia;
    destruct (Z.eqb_spec (Geom.diamond_r size) 1); try lia; reflexivity.
Qed.

Lemma chords_painted_by_size_witness :
  exists run, draw_icon_call four_gib 9 = Ok run /\
    List.length (filter (fun op => is_chord op = true) (im_ops (canvas run)))
    = 2%nat.
Proof.
  apply (chords_painted_by_size four_gib 9); [lia | reflexivity].
Defined.

(** ** The margin around the background *)

Lemma in_box_within (inner outer : Box) (x y : Z) :
  box_within inner outer = true -> in_box outer x y = false ->
  in_box inner x y = false.
Proof.
  destruct inner as [[[a0 b0] a1] b1], outer as [[[x0 y0] x1] y1].
  unfold box_within, in_box. rewrite !andb_true_iff, !Z.leb_le.
  intros [[[H1 H2] H3] H4] Ho.
  apply not_true_is_false. intros Hi. apply not_true_iff_false in Ho.
  apply Ho. rewrite !andb_true_iff, !Z.leb_le in Hi |- *. lia.
Qed.

Lemma outside_background (s : Z) (op : DrawOp) (x y : Z) :
  inside_background s op = true -> in_box (background_box s) x y = false ->
  may_touch op x y = false.
Proof.
  unfold inside_background, may_touch. destruct (footprint op) as [b|]; [|done].
  apply in_box_within.
Qed.

Lemma plan_inside_background_small :
  forallb (fun s => forallb (inside_background s) (plan s)) (seqZ 28 272) = true.
Proof. vm_cast_no_check (eq_refl true). Qed.

(** From size 300 on no stroke width is at its floor, and every
    coordinate is bounded by a fraction of the size. *)
Ltac geometry_bounds size :=
  let Hf := fresh in let Hn := fresh in
  destruct (geometry_all_sizes size ltac:(lia)) as [Hf Hn];
  unfold geometry_fractions, geometry_nonneg, floored_fraction in Hf, Hn;
  destruct Hf as (Hpad & Hrad & Hdcx & Hdcy & Hdr & Hir & Hlcx & Hlcy & Hlr & Hsr
                  & Hhsx & Hhsy & Hhex & Hhey & Hcr
                  & (t1 & Ht1 & Hlw) & (t2 & Ht2 & How) & (t3 & Ht3 & Hsw)
                  & (t4 & Ht4 & Hhw));
  destruct Hn as (Hn1 & Hn2 & Hn3 & Hn4 & Hn5 & Hn6 & Hn7 & Hn8 & Hn9 & Hn10
                  & Hn11 & Hn12 & Hn13 & Hn14 & Hn15);
  unfold truncation_of in *;
  rewrite Z.max_r in Hlw, How, Hsw, Hhw by lia;
  subst t1 t2 t3 t4.

Lemma chord_inside_background (size offset : Z) :
  300 <= size < 2 ^ 31 -> In offset (Geom.offsets size) ->
  forallb (inside_background size) (chord size offset) = true.
Proof.
  intros Hs Hoff.
  geometry_bounds size.
  pose proof (Z.div_mod (Geom.diamond_r size) 3 ltac:(lia)) as D1.
  pose proof (Z.mod_pos_bound (Geom.diamond_r size) 3 ltac:(lia)) as D2.
  assert (Z.abs offset <= Geom.diamond_r size / 3 + 1) as Habs.
  { unfold Geom.offsets in Hoff. cbn [In] in Hoff.
    pose proof (Z.div_mod (- Geom.diamond_r size) 3 ltac:(lia)) as D3.
    pose proof (Z.mod_pos_bound (- Geom.diamond_r size) 3 ltac:(lia)) as D4.
    lia. }
  revert Habs D1 D2.
  generalize (Geom.diamond_r size / 3) (Geom.diamond_r size mod 3).
  intros q m Habs D1 D2. clear Hoff.
  clear Hrad Hir Hlcx Hlcy Hlr Hsr Hhsx Hhsy Hhex Hhey Hcr Ht2 Ht3 Ht4
    Hn2 Hn6 Hn7 Hn8 Hn9 Hn10 Hn11 Hn12 Hn13 Hn14 Hn15.
  unfold chord, inside_background, background_box.
  revert Hpad Hdcx Hdcy Hdr Ht1 Hn1 Hn3 Hn4 Hn5 D1.
  generalize (Geom.pad size) (Geom.diamond_cx size) (Geom.diamond_cy size)
    (Geom.diamond_r size) (Geom.line_w size).
  intros pad dcx dcy dr lw. intros.
  destruct (Z.ltb_spec 0 (dr - Z.abs offset)); [|reflexivity].
  cbn [forallb footprint hull fold_left fmap option_fmap option_map grow
       box_within].
  rewrite !andb_true_iff, !Z.leb_le. repeat split; lia.
Qed.

Lemma plan_inside_background_large (size : Z) :
  300 <= size < 2 ^ 31 ->
  forallb (inside_background size) (plan size) = true.
Proof.
  intros Hs. unfold plan, diamond_part, chords.
  rewrite !forallb_app. rewrite !andb_true_iff. split; [split|].
  - geometry_bounds size.
    clear Hlcx Hlcy Hlr Hsr Hhsx Hhsy Hhex Hhey Hcr Ht1 Ht2 Ht3 Ht4
      Hn7 Hn8 Hn9 Hn10 Hn11 Hn12 Hn13 Hn14 Hn15.
    unfold background_op, diamond_pts, inside_background, background_box.
    revert Hpad Hrad Hdcx Hdcy Hdr Hir Hn1 Hn2 Hn3 Hn4 Hn5 Hn6.
    generalize (Geom.pad size) (Geom.radius size) (Geom.diamond_cx size)
      (Geom.diamond_cy size) (Geom.diamond_r size) (Geom.inner_r size).
    intros pad radius dcx dcy dr ir. intros.
    cbn [forallb footprint hull fold_left box_within].
    rewrite !andb_true_iff, !Z.leb_le. repeat split; lia.
  - apply forallb_forall. intros op Hop.
    apply in_flat_map in Hop as (offset & Hoff & Hop).
    pose proof (chord_inside_background size offset Hs Hoff) as Hc.
    rewrite forallb_forall in Hc. by apply Hc.
  - geometry_bounds size.
    clear Hrad Hdcx Hdcy Hdr Hir Ht1 Hn2 Hn3 Hn4 Hn5 Hn6.
    unfold lens_part, lens_outline_op, lens_fill_op, shine_op, handle_op,
      cap_op, inside_background, background_box.
    revert Hpad Hlcx Hlcy Hlr Hsr Hhsx Hhsy Hhex Hhey Hcr Ht2 Ht3 Ht4
      Hn1 Hn7 Hn8 Hn9 Hn10 Hn11 Hn12 Hn13 Hn14 Hn15.
    generalize (Geom.pad size) (Geom.lens_cx size) (Geom.lens_cy size)
      (Geom.lens_r size) (Geom.shine_r size) (Geom.handle_start_x size)
      (Geom.handle_start_y size) (Geom.handle_end_x size)
      (Geom.handle_end_y size) (Geom.cap_r size) (Geom.lens_outline_w size)
      (Geom.shine_w size) (Geom.handle_w size).
    intros pad lcx lcy lr sr hsx hsy hex hey cr ow sw hw. intros.
    cbn [forallb footprint hull fold_left fmap option_fmap option_map grow
         box_within].
    rewrite !andb_true_iff, !Z.leb_le. repeat split; lia.
Qed.

Lemma plan_inside_background (size : Z) :
  28 <= size < 2 ^ 31 ->
  Forall (fun op => inside_background size op = true) (plan size).
Proof.
  intros Hs. apply Forall_forall. intros op Hop.
  apply list_elem_of_In in Hop.
  destruct (Z.lt_ge_cases size 300) as [Hlt|Hge].
  - pose proof plan_inside_background_small as Hsmall.
    rewrite forallb_forall in Hsmall.
    specialize (Hsmall size). rewrite forallb_forall in Hsmall.
    apply Hsmall; [|exact Hop].
    apply list_elem_of_In, elem_of_seqZ. lia.
  - pose proof (plan_inside_background_large size ltac:(lia)) as Hlarge.
    rewrite forallb_forall in Hlarge. by apply Hlarge.
Qed.

(** ** The band above the shapes *)

Lemma above_band (s : Z) (op : DrawOp) (x y : Z) :
  below_band s op = true -> y < band_top s -> may_touch op x y = false.
Proof.
  unfold below_band, may_touch.
  destruct (footprint op) as [[[[x0 y0] x1] y1]|]; [|done].
  rewrite Z.leb_le. intros H Hy. unfold in_box.
  apply not_true_is_false. rewrite !andb_true_iff, !Z.leb_le. lia.
Qed.

Lemma later_below_band_small :
  forallb (fun s => forallb (below_band s) (tl (plan s))) (seqZ 20 280) = true.
Proof. vm_cast_no_check (eq_refl true). Qed.

Lemma chord_below_band (size offset : Z) :
  300 <= size < 2 ^ 31 -> In offset (Geom.offsets size) ->
  forallb (below_band size) (chord size offset) = true.
Proof.
  intros Hs Hoff.
  geometry_bounds size.
  pose proof (Z.div_mod (Geom.diamond_r size) 3 ltac:(lia)) as D1.
  pose proof (Z.mod_pos_bound (Geom.diamond_r size) 3 ltac:(lia)) as D2.
  assert (Z.abs offset <= Geom.diamond_r size / 3 + 1) as Habs.
  { unfold Geom.offsets in Hoff. cbn [In] in Hoff.
    pose proof (Z.div_mod (- Geom.diamond_r size) 3 ltac:(lia)) as D3.
    pose proof (Z.mod_pos_bound (- Geom.diamond_r size) 3 ltac:(lia)) as D4.
    lia. }
  revert Habs D1 D2.
  generalize (Geom.diamond_r size / 3) (Geom.diamond_r size mod 3).
  intros q m Habs D1 D2. clear Hoff.
  clear Hrad Hir Hsr Hhsx Hhsy Hhex Hhey Hcr Ht2 Ht3 Ht4
    Hn2 Hn6 Hn7 Hn10 Hn11 Hn12 Hn13 Hn14 Hn15 Hpad Hn1 Hlcx.
  unfold chord, below_band, band_top.
  revert Hdcx Hdcy Hdr Hlcy Hlr Ht1 Hn3 Hn4 Hn5 Hn8 Hn9 D1.
  generalize (Geom.diamond_cx size) (Geom.diamond_cy size)
    (Geom.diamond_r size) (Geom.line_w size) (Geom.lens_cy size)
    (Geom.lens_r size).
  intros dcx dcy dr lw lcy lr. intros.
  destruct (Z.ltb_spec 0 (dr - Z.abs offset)); [|reflexivity].
  cbn [forallb footprint hull fold_left fmap option_fmap option_map grow].
  rewrite andb_true_r, Z.leb_le. lia.
Qed.

Lemma later_below_band_large (size : Z) :
  300 <= size < 2 ^ 31 ->
  forallb (below_band size) (tl (plan size)) = true.
Proof.
  intros Hs. unfold plan, diamond_part, chords. cbn [app tl].
  change (forallb (below_band size)
            ([Polygon (diamond_pts (Geom.diamond_cx size) (Geom.diamond_cy size)
                         (Geom.diamond_r size)) (220, 60, 50, 255);
              Polygon (diamond_pts (Geom.diamond_cx size) (Geom.diamond_cy size)
                         (Geom.inner_r size)) (240, 90, 75, 255)]
             ++ flat_map (chord size) (Geom.offsets size) ++ lens_part size)
          = true).
  rewrite !forallb_app. rewrite !andb_true_iff. split; [|split].
  - geometry_bounds size.
    clear Hrad Hsr Hhsx Hhsy Hhex Hhey Hcr Ht1 Ht2 Ht3 Ht4
      Hn2 Hn7 Hn10 Hn11 Hn12 Hn13 Hn14 Hn15 Hpad Hn1 Hlcx.
    unfold diamond_pts, below_band, band_top.
    revert Hdcx Hdcy Hdr Hir Hlcy Hlr Hn3 Hn4 Hn5 Hn6 Hn8 Hn9.
    generalize (Geom.diamond_cx size) (Geom.diamond_cy size)
      (Geom.diamond_r size) (Geom.inner_r size) (Geom.lens_cy size)
      (Geom.lens_r size).
    intros dcx dcy dr ir lcy lr. intros.
    cbn [forallb footprint hull fold_left].
    rewrite !andb_true_iff, !Z.leb_le. repeat split; lia.
  - apply forallb_forall. intros op Hop.
    apply in_flat_map in Hop as (offset & Hoff & Hop).
    pose proof (chord_below_band size offset Hs Hoff) as Hc.
    rewrite forallb_forall in Hc. by apply Hc.
  - geometry_bounds size.
    clear Hrad Hdcx Hir Ht1 Hn2 Hn3 Hn6 Hpad Hn1.
    unfold lens_part, lens_outline_op, lens_fill_op, shine_op, handle_op,
      cap_op, below_band, band_top.
    revert Hdcy Hdr Hlcx Hlcy Hlr Hsr Hhsx Hhsy Hhex Hhey Hcr Ht2 Ht3 Ht4
      Hn4 Hn5 Hn7 Hn8 Hn9 Hn10 Hn11 Hn12 Hn13 Hn14 Hn15.
    generalize (Geom.diamond_cy size) (Geom.diamond_r size)
      (Geom.lens_cx size) (Geom.lens_cy size)
      (Geom.lens_r size) (Geom.shine_r size) (Geom.handle_start_x size)
      (Geom.handle_start_y size) (Geom.handle_end_x size)
      (Geom.handle_end_y size) (Geom.cap_r size) (Geom.lens_outline_w size)
      (Geom.shine_w size) (Geom.handle_w size).
    intros dcy dr lcx lcy lr sr hsx hsy hex hey cr ow sw hw. intros.
    cbn [forallb footprint hull fold_left fmap option_fmap option_map grow].
    rewrite !andb_true_iff, !Z.leb_le. repeat split; lia.
Qed.

Lemma later_below_band (size : Z) :
  20 <= size < 2 ^ 31 ->
  Forall (fun op => below_band size op = true) (tl (plan size)).
Proof.
  intros Hs. apply Forall_forall. intros op Hop.
  apply list_elem_of_In in Hop.
  destruct (Z.lt_ge_cases size 300) as [Hlt|Hge].
  - pose proof later_below_band_small as Hsmall.
    rewrite forallb_forall in Hsmall.
    specialize (Hsmall size). rewrite forallb_forall in Hsmall.
    apply Hsmall; [|exact Hop].
    apply list_elem_of_In, elem_of_seqZ. lia.
  - pose proof (later_below_band_large size ltac:(lia)) as Hlarge.
    rewrite forallb_forall in Hlarge. by apply Hlarge.
Qed.

(** The band lies on the canvas, in the part of the background that is
    filled whatever the rounding of the corners, and the pixel in the
    middle of its first row is in it. *)
Lemma top_band_spec (size : Z) :
  20 <= size < 2 ^ 31 ->
  in_top_band size (size / 2) (Geom.pad size) = true /\
  forall x y, in_top_band size x y = true ->
    0 <= x < size /\ 0 <= y < size /\ y < band_top size /\
    in_cross (background_box size) (Geom.radius size) x y = true.
Proof.
  intros Hs.
  assert (Hsmall : forallb (fun s =>
              in_top_band s (s / 2) (Geom.pad s) &&
              (band_top s <=? s - Geom.pad s)) (seqZ 20 280) = true)
    by (vm_cast_no_check (eq_refl true)).
  assert (in_top_band size (size / 2) (Geom.pad size) = true /\
          band_top size <= size - Geom.pad size) as [Hmid Htop].
  { destruct (Z.lt_ge_cases size 300) as [Hlt|Hge].
    - rewrite forallb_forall in Hsmall.
      specialize (Hsmall size ltac:(apply list_elem_of_In, elem_of_seqZ; lia)).
      apply andb_true_iff in Hsmall as [H1 H2]. by apply Z.leb_le in H2.
    - geometry_bounds size. unfold in_top_band, band_top.
      pose proof (Z.div_mod size 2 ltac:(lia)) as D1.
      pose proof (Z.mod_pos_bound size 2 ltac:(lia)) as D2.
      rewrite !andb_true_iff, !Z.ltb_lt, !Z.leb_le. lia. }
  split; [exact Hmid|].
  intros x y Hb. destruct (geometry_all_sizes size ltac:(lia)) as [_ Hn].
  destruct Hn as (Hn1 & Hn2 & _).
  unfold in_top_band in Hb. rewrite !andb_true_iff, !Z.ltb_lt, !Z.leb_le in Hb.
  unfold in_cross, background_box.
  rewrite andb_true_iff, orb_true_iff, !andb_true_iff, !Z.ltb_lt, !Z.leb_le.
  repeat split; lia.
Qed.

(** ** The background and the margin *)

(** The colour of a pixel the background fills and no later call
    reaches. *)
Lemma background_pixel (R : Rasteriser) (size : Z) (img : Image) (x y : Z) :
  draw_icon size = Painted img ->
  0 <= x < size -> 0 <= y < size ->
  in_cross (background_box size) (Geom.radius size) x y = true ->
  Forall (fun op => may_touch op x y = false) (tl (im_ops img)) ->
  getpixel R img (x, y) = Some (24, 24, 32, 255).
Proof.
  intros Himg Hx Hy Hin Hlater.
  pose proof (draw_icon_returned_image size img Himg) as [Hsize _].
  unfold getpixel. rewrite Hsize.
  replace ((0 <=? x) && (x <? size) && (0 <=? y) && (y <? size)) with true
    by (symmetry; rewrite !andb_true_iff, !Z.leb_le, !Z.ltb_lt; lia).
  f_equal. rewrite (im_unfold img).
  rewrite (draw_icon_complete size img Himg) in Hlater |- *.
  change (fold_left Image_draw (plan size) (im_base img))
    with (fold_left Image_draw (tl (plan size))
            (Image_draw (im_base img) (background_op size))).
  rewrite pixel_untouched by exact Hlater.
  cbn [pixel]. by apply paint_fill.
Qed.

(** C6, amended.  When [draw_icon] returns for a positive size, the
    background, the rounded square [[pad, pad, size - pad, size - pad]],
    has been filled with the fully opaque colour (24, 24, 32, 255) on a
    canvas created fully transparent.  Whatever the rasteriser, a pixel
    of the square outside its four corner squares that no later call
    reaches has exactly that colour, and a pixel no call reaches is
    still transparent.  For the sizes a canvas can have, below [2 ^ 31],
    the first holds in the whole band between the rounded corners above
    the diamond and the lens, which is never empty, and from size 28 on
    the second holds everywhere outside the square. *)
Theorem background_opaque_on_transparent_canvas
    (R : Rasteriser) (size : Z) (img : Image) :
  0 < size -> draw_icon size = Painted img ->
  (forall x y, 0 <= x < size -> 0 <= y < size ->
     in_cross (background_box size) (Geom.radius size) x y = true ->
     Forall (fun op => may_touch op x y = false) (tl (im_ops img)) ->
     getpixel R img (x, y) = Some (24, 24, 32, 255)) /\
  (forall x y, 0 <= x < size -> 0 <= y < size ->
     Forall (fun op => may_touch op x y = false) (im_ops img) ->
     getpixel R img (x, y) = Some (0, 0, 0, 0)) /\
  (size < 2 ^ 31 ->
   in_top_band size (size / 2) (Geom.pad size) = true /\
   (forall x y, in_top_band size x y = true ->
      getpixel R img (x, y) = Some (24, 24, 32, 255)) /\
   (28 <= size -> forall x y, 0 <= x < size -> 0 <= y < size ->
      in_box (background_box size) x y = false ->
      getpixel R img (x, y) = Some (0, 0, 0, 0))).
Proof.
  intros Hpos Himg. split; [|split].
  - intros x y. by apply background_pixel.
  - intros x y. by apply untouched_pixel.
  - intros Hmax.
    assert (20 <= size) as Hmin.
    { destruct (Z.lt_ge_cases size 20) as [Hlt|Hge]; [|done].
      destruct (draw_icon_raises_below_20 size ltac:(lia)) as [img' Hraise].
      rewrite Hraise in Himg. discriminate Himg. }
    destruct (top_band_spec size ltac:(lia)) as [Hmid Hband].
    split; [exact Hmid|]. split.
    + intros x y Hb. destruct (Hband x y Hb) as (Hx & Hy & Htop & Hin).
      apply (background_pixel R size); [done..|].
      rewrite (draw_icon_complete size img Himg).
      eapply Forall_impl; [apply (later_below_band size); lia|].
      intros op Hop. by apply (above_band size).
    + intros H28 x y Hx Hy Hout.
      apply (untouched_pixel R size); [done..|].
      rewrite (draw_icon_complete size img Himg).
      eapply Forall_impl; [apply (plan_inside_background size); lia|].
      intros op Hop. by apply (outside_background size).
Qed.

(** X6.  From size 28 on, when the allocator hands out the canvas, the
    call returns an icon with a transparent margin: whatever the
    rasteriser, a pixel outside the box of the background, [[pad, pad,
    size - pad, size - pad]], is still the transparent black the canvas
    was created with, since the footprint of every call lies in that
    box. *)
Theorem margin_stays_transparent (R : Rasteriser) (A : Allocator)
    (size x y : Z) :
  28 <= size < 2 ^ 31 -> grants A (4 * size * size) = true ->
  0 <= x < size -> 0 <= y < size ->
  in_box (background_box size) x y = false ->
  exists img, draw_icon_call A size = Ok (Painted img) /\
    getpixel R img (x, y) = Some (0, 0, 0, 0).
Proof.
  intros Hs Hg Hx Hy Hout.
  destruct (draw_icon_paints_from_20 size ltac:(lia)) as (img & Hrun & _ & _ & Hops).
  exists img. split.
  - rewrite draw_icon_call_granted by (done || lia). by rewrite Hrun.
  - apply (untouched_pixel R size); [done..|]. rewrite Hops.
    eapply Forall_impl; [apply (plan_inside_background size Hs)|].
    intros op Hop. by apply (outside_background size).
Qed.

Lemma margin_stays_transparent_witness :
  exists img, draw_icon_call four_gib 28 = Ok (Painted img) /\
    getpixel box_rasteriser img (0, 5) = Some (0, 0, 0, 0).
Proof.
  apply (margin_stays_transparent box_rasteriser four_gib 28 0 5);
    [lia | reflexivity | lia | lia |].
  vm_compute. reflexivity.
Defined.

Lemma background_opaque_on_transparent_canvas_witness :
  draw_icon SIZE = Painted master /\
  getpixel box_rasteriser master (512, 61) = Some (24, 24, 32, 255) /\
  getpixel box_rasteriser master (0, 0) = Some (0, 0, 0, 0).
Proof.
  split; [apply draw_icon_SIZE|].
  destruct (background_opaque_on_transparent_canvas box_rasteriser SIZE master
              ltac:(done) draw_icon_SIZE) as (_ & _ & H).
  destruct (H ltac:(done)) as (Hmid & Hband & Hmargin).
  split.
  - apply (Hband 512 61). vm_compute. reflexivity.
  - apply Hmargin; [done | done | done |]. vm_compute. reflexivity.
Defined.

(** X7.  The geometry at every size below [2 ^ 31]: each offset and
    radius of [draw_icon] is the stated fraction of the size (or of the
    radius it is derived from) cut to a whole number of pixels, each
    stroke width is the larger of its floor and such a fraction, and
    none of them is negative.  The binary64 product never lands further
    than one pixel below the exact fraction. *)
Theorem geometry_at_every_size (size : Z) :
  0 <= size < 2 ^ 31 -> geometry_fractions size /\ geometry_nonneg size.
Proof. apply geometry_all_sizes. Qed.

Lemma geometry_at_every_size_witness :
  geometry_fractions 2000000000 /\ geometry_nonneg 2000000000.
Proof. apply (geometry_at_every_size 2000000000). lia. Defined.

(* ===================================================================== *)
(** * [main] when it cannot write *)
(* ===================================================================== *)

Lemma write_file_directory (path : string) (c : FileContent) (w : World) :
  path ∈ dirs w → write_file path c w = (Raise (IsADirectoryError path), w).
Proof. intros H. unfold write_file. by rewrite decide_True. Qed.

Lemma export_stops (script_dir : string) (m : Image) (w : World) (k : nat)
    (f : string) :
  icon_dir script_dir ∈ dirs w →
  filenames !! k = Some f →
  (∀ g, g ∈ take k filenames → icon_path script_dir g ∉ dirs w) →
  icon_path script_dir f ∈ dirs w →
  export (icon_dir script_dir) m w
  = (Raise (IsADirectoryError (icon_path script_dir f)),
     {| dirs := dirs w;
        files := foldl (store script_dir) (files w) (take k (artifacts m));
        stdout := stdout w ++ take k messages |}).
Proof.
  intros Hex Hk Hfree Hdir.
  unfold export, for_, bind, save.PNG, save.ICO, save.ICNS, print, ret.
  cbn [map]. rewrite ico_frames_export.
  repeat match goal with
  | |- context [os_path.join (icon_dir script_dir) [?f]] =>
      change (os_path.join (icon_dir script_dir) [f]) with (icon_path script_dir f)
  end.
  destruct k as [|[|[|[|[|[|k]]]]]]; [..|discriminate Hk];
    injection Hk as <-; cbn [take filenames] in Hfree;
    repeat (rewrite write_icon_ok;
            [ cbn [dirs files stdout]
            | reflexivity
            | reflexivity
            | exact Hex
            | apply Hfree, list_elem_of_In; cbn [In]; tauto ]);
    rewrite write_file_directory by exact Hdir;
    cbn [take artifacts messages foldl store fst snd];
    rewrite <- ?app_assoc, ?app_nil_r; destruct w; reflexivity.
Qed.

Lemma main_file_exists (script_dir : string) (w : World) :
  icon_dir script_dir ∈ dom (files w) →
  main script_dir w = (Raise (FileExistsError (icon_dir script_dir)), w).
Proof.
  intros H. unfold main. fold (icon_dir script_dir).
  unfold bind, makedirs. by rewrite decide_True.
Qed.

Lemma main_stops (script_dir : string) (w : World) (k : nat) (f : string) :
  icon_dir script_dir ∉ dom (files w) →
  first_blocked script_dir w k f →
  main script_dir w
  = (Raise (IsADirectoryError (icon_path script_dir f)),
     after_partial script_dir k w).
Proof.
  intros Hfile (Hk & Hfree & Hblocked & Hdir).
  unfold main. fold (icon_dir script_dir).
  erewrite bind_ok by (apply makedirs_ok; split; [done | by left]).
  unfold call_draw_icon. rewrite draw_icon_SIZE.
  erewrite bind_ok by reflexivity.
  rewrite (export_stops script_dir master _ k f); [reflexivity|..].
  - cbn [dirs]. apply makedirs_dir.
  - exact Hk.
  - cbn [dirs]. intros g Hg. apply not_elem_of_union. split; [|by apply Hfree].
    apply icon_path_not_made, filenames_plain. eapply subseteq_take, Hg.
  - cbn [dirs]. by apply elem_of_union_r.
Qed.

(** In a file system, a regular file at an ancestor of a path nothing is
    at stops [makedirs]: the nearest ancestor that is there is a regular
    file. *)
Lemma missing_blocked (w : World) (n : nat) (q p : string) :
  well_formed w → p ∈ ancestors_upto n q → p ∈ dom (files w) →
  ∃ d, (missing w (ancestors_upto n q)).2 = Some d ∧ d ∈ dom (files w).
Proof.
  intros Hwf. revert q. induction n as [|n IH]; intros q Hp Hpf;
    cbn [ancestors_upto] in *.
  - by apply not_elem_of_nil in Hp.
  - destruct (is_top (os_path.dirname q)); [by apply not_elem_of_nil in Hp|].
    cbn [missing]. destruct (listed w (os_path.dirname q)) eqn:Hl.
    + exists (os_path.dirname q). split; [done|].
      destruct (decide (os_path.dirname q ∈ dom (files w))) as [|Hnf]; [done|].
      exfalso. apply elem_of_cons in Hp as [->|Hp]; [done|].
      apply (ancestors_listed w n _ p Hwf Hl) in Hp.
      destruct Hwf as [_ Hdisj]. by apply (Hdisj p).
    + apply elem_of_cons in Hp as [->|Hp].
      { unfold listed in Hl. apply orb_false_iff in Hl as [_ Hl].
        by apply bool_decide_eq_false in Hl. }
      destruct (IH _ Hp Hpf) as (d & Hd & Hdf).
      destruct (missing w (ancestors_upto n (os_path.dirname q))) as [m e].
      by exists d.
Qed.

Lemma main_not_a_directory (script_dir : string) (w : World) (p : string) :
  well_formed w →
  icon_dir script_dir ∉ dirs w → icon_dir script_dir ∉ dom (files w) →
  p ∈ ancestors (icon_dir script_dir) → p ∈ dom (files w) →
  ∃ path, main script_dir w = (Raise (NotADirectoryError path), w).
Proof.
  intros Hwf Hd Hf Hp Hpf.
  destruct (missing_blocked w _ _ p Hwf Hp Hpf) as (d & He & Hdf).
  unfold main. fold (icon_dir script_dir).
  unfold bind, makedirs. rewrite !decide_False by done.
  fold (ancestors (icon_dir script_dir)) in He.
  destruct (missing w (ancestors (icon_dir script_dir))) as [m e].
  cbn [snd] in He. subst e. rewrite decide_True by done. by eexists.
Qed.

(** Either every element of a list is free, or there is a first one that
    is not. *)
Lemma first_not_free {A : Type} (P : A → Prop) `{!∀ x, Decision (P x)}
    (l : list A) :
  (∀ x, x ∈ l → ¬ P x) ∨
  (∃ k x, l !! k = Some x ∧ (∀ y, y ∈ take k l → ¬ P y) ∧ P x).
Proof.
  induction l as [|a l IH].
  - left. intros x Hx. by apply not_elem_of_nil in Hx.
  - destruct (decide (P a)) as [Ha|Ha].
    + right. exists 0%nat, a. split; [done|]. split; [|done].
      intros y Hy. by apply not_elem_of_nil in Hy.
    + destruct IH as [IH|(k & x & Hk & Hfree & Hx)].
      * left. intros x Hx. apply elem_of_cons in Hx as [->|Hx]; auto.
      * right. exists (S k), x. split; [done|]. split; [|done].
        intros y Hy. cbn [take] in Hy.
        apply elem_of_cons in Hy as [->|Hy]; auto.
Qed.

Lemma later_targets_untouched (script_dir : string) (fs : gmap string FileContent)
    (k : nat) (g : string) :
  g ∈ drop k filenames →
  foldl (store script_dir) fs (take k (artifacts master))
    !! icon_path script_dir g = fs !! icon_path script_dir g.
Proof.
  intros Hg. apply list_elem_of_In in Hg.
  destruct k as [|[|[|[|[|[|k]]]]]];
    cbn [drop filenames] in Hg; rewrite ?drop_nil in Hg; cbn [In] in Hg;
    cbn [take artifacts foldl]; unfold store; cbn [fst snd];
    repeat (destruct Hg as [<-|Hg];
            [by rewrite ?lookup_insert_ne by icon_paths_differ|]);
    destruct Hg.
Qed.

Lemma earlier_targets_written (script_dir : string) (fs : gmap string FileContent)
    (k j : nat) (g : string) (c : FileContent) :
  (j < k)%nat → artifacts master !! j = Some (g, c) →
  foldl (store script_dir) fs (take k (artifacts master))
    !! icon_path script_dir g = Some c.
Proof.
  intros Hj Hg.
  assert ((g, c) ∈ take k (artifacts master)) as Hin.
  { apply list_elem_of_lookup. exists j. by rewrite lookup_take_lt. }
  clear Hj Hg. apply list_elem_of_In in Hin.
  destruct k as [|[|[|[|[|[|k]]]]]];
    cbn [take artifacts] in Hin; rewrite ?take_nil in Hin; cbn [In] in Hin;
    cbn [take artifacts foldl]; rewrite ?take_nil; cbn [foldl];
    unfold store; cbn [fst snd];
    repeat (destruct Hin as [[= <- <-]|Hin];
            [ repeat first [ by rewrite lookup_insert_eq
                           | rewrite lookup_insert_ne by icon_paths_differ ] |]);
    destruct Hin.
Qed.

Lemma blocked_world_first_blocked (script_dir : string) :
  first_blocked script_dir (blocked_world script_dir) 1 "128x128.png".
Proof.
  split; [reflexivity|]. split; [|split]; cbn [blocked_world dirs].
  - intros g Hg. apply list_elem_of_In in Hg. cbn [take filenames In] in Hg.
    destruct Hg as [<-|[]].
    rewrite not_elem_of_union, !not_elem_of_singleton. split.
    + by apply icon_path_ne_dir.
    + icon_paths_differ.
  - apply elem_of_union_r. by apply elem_of_singleton.
  - apply elem_of_union_l. by apply elem_of_singleton.
Qed.

Lemma blocked_world_no_file (script_dir : string) :
  icon_dir script_dir ∉ dom (files (blocked_world script_dir)).
Proof. cbn [blocked_world files]. rewrite dom_empty_L. apply not_elem_of_empty. Qed.

Lemma file_world_has_file (script_dir : string) :
  icon_dir script_dir ∈ dom (files (file_world script_dir)).
Proof.
  cbn [file_world files]. rewrite dom_singleton_L. by apply elem_of_singleton.
Qed.

(** X8.  In a file system [main] returns exactly when no regular file
    is at the path of the icon directory, none is at an ancestor of it
    unless the directory is there already, and none of the six targets
    is a directory; otherwise it raises. *)
Theorem main_returns_iff_writable (script_dir : string) (w : World) :
  well_formed w →
  (∃ w', main script_dir w = (Ok tt, w')) ↔ writable script_dir w.
Proof.
  intros Hwf. split.
  - intros [w' Hrun].
    destruct (decide (icon_dir script_dir ∈ dom (files w))) as [Hfile|Hfile].
    { rewrite main_file_exists in Hrun by exact Hfile. discriminate Hrun. }
    split; [split; [exact Hfile|]|].
    + destruct (decide (icon_dir script_dir ∈ dirs w)) as [Hd|Hd]; [by left|].
      right. intros p Hp Hpf.
      destruct (main_not_a_directory script_dir w p Hwf Hd Hfile Hp Hpf)
        as [path Hraise].
      rewrite Hraise in Hrun. discriminate Hrun.
    + destruct (first_not_free (λ f, icon_path script_dir f ∈ dirs w) filenames)
        as [Hfree|(k & f & Hk & Hfree & Hf)]; [exact Hfree|].
      rewrite (main_stops script_dir w k f Hfile) in Hrun; [discriminate Hrun|].
      split; [done|]. split; [done|]. split; [done|].
      destruct Hwf as [Hwf _].
      destruct (Hwf (icon_path script_dir f)) as [H|H].
      * unfold listed. by rewrite bool_decide_eq_true_2.
      * assert (f ∈ filenames) as Hfn by by eapply list_elem_of_lookup_2.
        destruct (filenames_plain f Hfn).
        rewrite dirname_icon_path, icon_dir_not_top in H by done. discriminate H.
      * assert (f ∈ filenames) as Hfn by by eapply list_elem_of_lookup_2.
        destruct (filenames_plain f Hfn).
        by rewrite dirname_icon_path in H.
  - intros Hw. exists (after_main script_dir w). by apply main_spec.
Qed.

(** X9.  When a target path is a directory, [main] stops there with
    [IsADirectoryError] and leaves a partial result: the icon directory
    is made, the files before that target hold their new content and
    their lines are printed, and the targets from that one on are as
    they were.  Nothing is rolled back, and the closing line is not
    printed. *)
Theorem main_stops_at_directory (script_dir : string) (w : World) (k : nat)
    (f : string) :
  icon_dir script_dir ∉ dom (files w) →
  first_blocked script_dir w k f →
  ∃ w', main script_dir w
        = (Raise (IsADirectoryError (icon_path script_dir f)), w') ∧
    exit_status (fst (main script_dir w)) = 1 ∧
    icon_dir script_dir ∈ dirs w' ∧
    stdout w' = stdout w ++ take k messages ∧
    (∀ j g c, (j < k)%nat → artifacts master !! j = Some (g, c) →
       files w' !! icon_path script_dir g = Some c) ∧
    (∀ g, g ∈ drop k filenames →
       files w' !! icon_path script_dir g = files w !! icon_path script_dir g).
Proof.
  intros Hfile Hblocked. exists (after_partial script_dir k w).
  rewrite (main_stops script_dir w k f Hfile Hblocked).
  split; [reflexivity|]. split; [reflexivity|]. split.
  { cbn [after_partial dirs]. apply makedirs_dir. }
  split; [reflexivity|]. split.
  - intros j g c Hj Hg. by apply (earlier_targets_written _ _ k j).
  - intros g Hg. by apply later_targets_untouched.
Qed.

Lemma main_stops_at_directory_witness :
  ∃ w', main "scripts" (blocked_world "scripts")
        = (Raise (IsADirectoryError "scripts/../src-tauri/icons/128x128.png"), w') ∧
    stdout w' = ["  Saved 32x32.png (32x32)"] ∧
    files w' !! icon_path "scripts" "32x32.png"
    = Some (PNGFile (resize master (32, 32) LANCZOS)) ∧
    files w' !! icon_path "scripts" "icon.png" = None.
Proof.
  destruct (main_stops_at_directory "scripts" (blocked_world "scripts") 1
              "128x128.png" (blocked_world_no_file "scripts")
              (blocked_world_first_blocked "scripts"))
    as (w' & Hrun & _ & _ & Hout & Hearlier & Hlater).
  exists w'. split; [exact Hrun|]. split; [exact Hout|]. split.
  - apply (Hearlier 0%nat); [lia | reflexivity].
  - rewrite Hlater; [reflexivity|].
    apply list_elem_of_In. cbn [drop filenames In]. tauto.
Defined.

(** X10.  When the path of the icon directory is a regular file,
    [os.makedirs] raises [FileExistsError] - [exist_ok] covers
    directories only - and [main] ends before it draws, writes or prints
    anything: the world is as it was. *)
Theorem main_refuses_file_as_directory (script_dir : string) (w : World) :
  icon_dir script_dir ∈ dom (files w) →
  main script_dir w = (Raise (FileExistsError (icon_dir script_dir)), w) ∧
  exit_status (fst (main script_dir w)) = 1.
Proof.
  intros Hfile. rewrite (main_file_exists script_dir w Hfile). by split.
Qed.

Lemma main_refuses_file_as_directory_witness :
  main "scripts" (file_world "scripts")
  = (Raise (FileExistsError "scripts/../src-tauri/icons"), file_world "scripts").
Proof.
  apply (main_refuses_file_as_directory "scripts" (file_world "scripts")).
  apply file_world_has_file.
Defined.

(** X11.  [main] can be run again: the second run finds the directory
    ([exist_ok=True]), returns as well, leaves the directories and every
    file as the first run left them, and prints the same lines once
    more. *)
Theorem main_twice (script_dir : string) (w : World) :
  writable script_dir w →
  ∃ w1 w2, main script_dir w = (Ok tt, w1) ∧
    main script_dir w1 = (Ok tt, w2) ∧
    dirs w2 = dirs w1 ∧ files w2 = files w1 ∧
    stdout w2 = stdout w ++ messages ++ messages.
Proof.
  intros Hw.
  exists (after_main script_dir w), (after_main script_dir (after_main script_dir w)).
  split; [by apply main_spec|].
  split; [by apply main_spec, writable_after_main|].
  split; [|split].
  - cbn [after_main after_export dirs]. unfold made at 1.
    rewrite decide_True by apply makedirs_dir. apply (left_id_L ∅ (∪)).
  - unfold after_main, after_export. cbn [files].
    exact (after_export_idem script_dir master
             {| dirs := dirs w; files := files w; stdout := stdout w |}).
  - cbn [after_main after_export stdout]. by rewrite <- app_assoc.
Qed.

Lemma main_twice_witness :
  ∃ w1 w2, main "scripts" empty_world = (Ok tt, w1) ∧
    main "scripts" w1 = (Ok tt, w2) ∧
    files w2 = files w1 ∧ stdout w2 = messages ++ messages.
Proof.
  destruct (main_twice "scripts" empty_world (writable_empty "scripts"))
    as (w1 & w2 & H1 & H2 & _ & Hf & Hout).
  exists w1, w2. split; [exact H1|]. split; [exact H2|].
  split; [exact Hf | exact Hout].
Defined.

(* ===================================================================== *)
(** * The output paths *)
(* ===================================================================== *)

Lemma join2_plain (path b : string) :
  path ≠ "" → os_path.endswith_sep path = false →
  os_path.startswith_sep b = false →
  os_path.join2 path b = path +:+ ("/" +:+ b).
Proof.
  intros Hne Hend Hb. unfold os_path.join2.
  by rewrite Hb, Hend, bool_decide_eq_false_2.
Qed.

Lemma icon_dir_relative (script_dir : string) :
  ∃ x, icon_dir script_dir = x +:+ "../src-tauri/icons" ∧
    (script_dir = "" ∧ x = ""
     ∨ os_path.endswith_sep script_dir = true ∧ x = script_dir
     ∨ script_dir ≠ "" ∧ os_path.endswith_sep script_dir = false
       ∧ x = script_dir +:+ "/").
Proof.
  assert (∃ x, os_path.join2 script_dir ".." = x +:+ ".." ∧
            (script_dir = "" ∧ x = ""
             ∨ os_path.endswith_sep script_dir = true ∧ x = script_dir
             ∨ script_dir ≠ "" ∧ os_path.endswith_sep script_dir = false
               ∧ x = script_dir +:+ "/")) as (x & Hx & Hcases).
  { unfold os_path.join2. cbn [os_path.startswith_sep].
    rewrite bool_decide_eq_false_2 by done.
    destruct (decide (script_dir = "")) as [->|Hne].
    - exists "". split; [reflexivity|]. by left.
    - rewrite (bool_decide_eq_false_2 _ Hne). cbn [orb].
      destruct (os_path.endswith_sep script_dir) eqn:Hend.
      + exists script_dir. split; [reflexivity|]. right. by left.
      + exists (script_dir +:+ "/"). split; [by rewrite app_assoc_s|].
        right. by right. }
  exists x. split; [|exact Hcases].
  unfold icon_dir, os_path.join. cbn [fold_left]. rewrite Hx.
  rewrite (join2_plain (x +:+ "..") "src-tauri");
    [|by apply app_nonempty | by rewrite endswith_sep_app | done].
  rewrite (join2_plain _ "icons");
    [|by apply app_nonempty | by rewrite endswith_sep_app | done].
  by rewrite !app_assoc_s.
Qed.

(** X12.  The paths [main] writes to, for every value of
    [os.path.dirname(__file__)]: the icon directory is
    [../src-tauri/icons] appended to the directory of the script - as it
    is when it is empty or ends with a separator, after a separator
    otherwise; it is neither normalised nor made absolute.  The six
    targets are the file names appended to it after one separator, lie
    directly in it, and are pairwise distinct. *)
Theorem output_paths (script_dir : string) :
  (∃ x, icon_dir script_dir = x +:+ "../src-tauri/icons" ∧
     (script_dir = "" ∧ x = ""
      ∨ os_path.endswith_sep script_dir = true ∧ x = script_dir
      ∨ script_dir ≠ "" ∧ os_path.endswith_sep script_dir = false
        ∧ x = script_dir +:+ "/")) ∧
  Forall (λ f, icon_path script_dir f = icon_dir script_dir +:+ ("/" +:+ f) ∧
               os_path.dirname (icon_path script_dir f) = icon_dir script_dir)
    filenames ∧
  NoDup (icon_path script_dir <$> filenames).
Proof.
  split; [apply icon_dir_relative|]. split.
  - apply Forall_forall. intros f Hf.
    destruct (filenames_plain f Hf) as [Hs Hh].
    split; [by apply icon_path_eq | by apply dirname_icon_path].
  - apply NoDup_fmap_2_strong.
    + intros f g Hf Hg. apply icon_path_inj; by apply filenames_plain.
    + apply (bool_decide_unpack _). vm_compute. exact I.
Qed.

Lemma output_paths_witness : icon_dir "" = "../src-tauri/icons".
Proof.
  destruct (output_paths "") as [(x & Hx & [[_ ->]|[[H _]|(H & _)]]) _].
  - exact Hx.
  - discriminate H.
  - by destruct H.
Defined.

Lemma main_returns_iff_writable_witness :
  ∃ w', main "scripts" empty_world = (Ok tt, w').
Proof.
  apply (main_returns_iff_writable "scripts" empty_world well_formed_empty),
    writable_empty.
Defined.

(* ===================================================================== *)
(** * The handle and the lens *)
(* ===================================================================== *)

Lemma handle_joins_lensb_spec (s : Z) :
  handle_joins_lensb s = true -> handle_joins_lens s.
Proof.
  unfold handle_joins_lensb, handle_joins_lens.
  rewrite !andb_true_iff, !Z.leb_le, Z.ltb_lt. tauto.
Qed.

Lemma handle_joins_lens_small :
  forallb handle_joins_lensb (seqZ 20 280) = true.
Proof. vm_cast_no_check (eq_refl true). Qed.

Lemma sq_le (a b : Z) : 0 <= a <= b -> sq a <= sq b.
Proof. intros H. unfold sq. apply Z.mul_le_mono_nonneg; lia. Qed.

Lemma handle_joins_lens_large (size : Z) :
  300 <= size < 2 ^ 31 -> handle_joins_lens size.
Proof.
  intros Hs. geometry_bounds size.
  clear Hrad Hdcx Hdcy Hdr Hir Hsr Hcr Ht1 Ht3 Ht4 Hn1 Hn2 Hn3 Hn4 Hn5 Hn6
    Hn10 Hn15 Hpad.
  unfold handle_joins_lens, lens_dist2.
  revert Hlcx Hlcy Hlr Hhsx Hhsy Hhex Hhey Ht2 Hn7 Hn8 Hn9 Hn11 Hn12 Hn13 Hn14.
  generalize (Geom.lens_cx size) (Geom.lens_cy size) (Geom.lens_r size)
    (Geom.handle_start_x size) (Geom.handle_start_y size)
    (Geom.handle_end_x size) (Geom.handle_end_y size)
    (Geom.lens_outline_w size).
  intros lcx lcy lr hsx hsy hex hey ow. intros.
  pose proof (sq_le (10 * (hsx - lcx)) (7 * lr) ltac:(lia)) as A1.
  pose proof (sq_le (10 * (hsy - lcy)) (7 * lr) ltac:(lia)) as A2.
  pose proof (sq_le (5 * (lr - ow)) (7 * (hsx - lcx)) ltac:(lia)) as B1.
  pose proof (sq_le (5 * (lr - ow)) (7 * (hsy - lcy)) ltac:(lia)) as B2.
  pose proof (sq_le lr (hex - lcx) ltac:(lia)) as C1.
  pose proof (sq_le 1 (hey - lcy) ltac:(lia)) as C2.
  pose proof (sq_le 0 (hsx - lcx) ltac:(lia)) as E1.
  pose proof (sq_le 0 (hsy - lcy) ltac:(lia)) as E2.
  pose proof (sq_le 0 lr ltac:(lia)) as E3.
  unfold sq in *. repeat split; lia.
Qed.

(** X13.  Where the handle sits, at every size [draw_icon] returns for:
    its start, [0.7 * lens_r] right of and below the centre of the lens,
    lies on the outline ring of the lens, and its end lies outside the
    lens, right of and below the start. *)
Theorem handle_starts_on_the_lens_outline (size : Z) :
  20 <= size < 2 ^ 31 -> handle_joins_lens size.
Proof.
  intros Hs. destruct (Z.lt_ge_cases size 300) as [Hlt|Hge].
  - apply handle_joins_lensb_spec.
    pose proof handle_joins_lens_small as Hsmall.
    rewrite forallb_forall in Hsmall. apply Hsmall.
    apply list_elem_of_In, elem_of_seqZ. lia.
  - apply handle_joins_lens_large. lia.
Qed.

Lemma handle_starts_on_the_lens_outline_witness : handle_joins_lens 1024.
Proof. apply (handle_starts_on_the_lens_outline 1024). lia. Defined.
